(** * The DNS / HTTP / text verification funnel of [dns-http-scrape.js]

    A shallow embedding of the funnel script: the three stage operations
    ([dnsLookup], [httpCheck], [fetchText]), the helper [isIpHost], and the
    controller loop of [main] with its six counters and its result list.

    The network, the URL parser and the HTML library are external
    collaborators; they appear as the fields of an environment record, one
    environment per loop iteration, so that nothing is assumed about what
    they answer. *)

From Stdlib Require Import List NArith ZArith Lia Bool String Ascii Arith.
Import ListNotations.

Set Warnings "-abstract-large-number".

(* ================================================================== *)
(** * JavaScript strings *)
(* ================================================================== *)

Module JsString.

(** A JavaScript string is a sequence of UTF-16 code units; [length],
    [slice] and the regular expressions of the script all work on code
    units. *)
Definition code_unit := N.
Definition jstring := list code_unit.

(** String literals of the script (all of them ASCII). *)
Definition lit (s : string) : jstring :=
  map N_of_ascii (list_ascii_of_string s).

Definition jstring_eqb (a b : jstring) : bool :=
  if list_eq_dec N.eq_dec a b then true else false.

(** [s.startsWith(p)] *)
Fixpoint startsWith (p s : jstring) : bool :=
  match p, s with
  | [], _ => true
  | _ :: _, [] => false
  | a :: p', b :: s' => N.eqb a b && startsWith p' s'
  end.

(** [s.slice(0, n)] for a non-negative [n]. *)
Definition slice0 (n : nat) (s : jstring) : jstring := firstn n s.

(** [parts.join(sep)] *)
Fixpoint join (sep : jstring) (parts : list jstring) : jstring :=
  match parts with
  | [] => []
  | [p] => p
  | p :: rest => p ++ sep ++ join sep rest
  end.

(** The class [\s] of ECMAScript: WhiteSpace and LineTerminator code
    points; [trim] strips the same class. *)
Definition is_space (c : code_unit) : bool :=
  ((9 <=? c) && (c <=? 13) || (c =? 32) || (c =? 160) || (c =? 5760)
   || (8192 <=? c) && (c <=? 8202) || (c =? 8232) || (c =? 8233)
   || (c =? 8239) || (c =? 8287) || (c =? 12288) || (c =? 65279))%N.

Fixpoint drop_spaces (s : jstring) : jstring :=
  match s with
  | c :: s' => if is_space c then drop_spaces s' else s
  | [] => []
  end.

(** [s.replace(/\s+/g, " ")]: every maximal run of white space becomes
    one space. *)
Fixpoint collapse_spaces (s : jstring) : jstring :=
  match s with
  | [] => []
  | c :: s' =>
      if is_space c
      then 32%N :: (fix skip (t : jstring) : jstring :=
                      match t with
                      | d :: t' => if is_space d then skip t'
                                   else d :: collapse_spaces t'
                      | [] => []
                      end) s'
      else c :: collapse_spaces s'
  end.

(** [s.trim()] *)
Definition trim (s : jstring) : jstring :=
  rev (drop_spaces (rev (drop_spaces s))).

End JsString.
Import JsString.

(* ================================================================== *)
(** * Regular expressions (the fragment used by the script) *)
(* ================================================================== *)

Module Regex.

(** Patterns built from character classes, concatenation and
    alternation; bounded repetition [r{n}] and [r{1,3}] unfold into
    these.  A pattern anchored with [^] and [$] is tested against the
    whole subject. *)
Inductive regex : Type :=
| Void  : regex
| Eps   : regex
| Class : (code_unit -> bool) -> regex
| Cat   : regex -> regex -> regex
| Alt   : regex -> regex -> regex.

Fixpoint nullable (r : regex) : bool :=
  match r with
  | Void => false
  | Eps => true
  | Class _ => false
  | Cat a b => nullable a && nullable b
  | Alt a b => nullable a || nullable b
  end.

(** Brzozowski derivative of [r] by the code unit [c]. *)
Fixpoint deriv (c : code_unit) (r : regex) : regex :=
  match r with
  | Void => Void
  | Eps => Void
  | Class p => if p c then Eps else Void
  | Cat a b =>
      if nullable a
      then Alt (Cat (deriv c a) b) (deriv c b)
      else Cat (deriv c a) b
  | Alt a b => Alt (deriv c a) (deriv c b)
  end.

(** [/^r$/.test(s)] *)
Fixpoint test (r : regex) (s : jstring) : bool :=
  match s with
  | [] => nullable r
  | c :: s' => test (deriv c r) s'
  end.

(** [r?] *)
Definition Opt (r : regex) : regex := Alt r Eps.

(** [r{n}] *)
Fixpoint Times (n : nat) (r : regex) : regex :=
  match n with
  | O => Eps
  | S n' => Cat r (Times n' r)
  end.

(** [r{1,3}] *)
Definition OneToThree (r : regex) : regex := Cat r (Cat (Opt r) (Opt r)).

(** The denotation of a pattern: the set of subjects it matches. *)
Fixpoint lang (r : regex) (s : jstring) : Prop :=
  match r with
  | Void => False
  | Eps => s = []
  | Class p => exists c, s = [c] /\ p c = true
  | Cat a b => exists s1 s2, s = s1 ++ s2 /\ lang a s1 /\ lang b s2
  | Alt a b => lang a s \/ lang b s
  end.

End Regex.
Import Regex.

(* ================================================================== *)
(** * Completions: values and thrown faults *)
(* ================================================================== *)

(** The outcome of evaluating an expression or awaiting a promise: a value,
    or a thrown exception (a rejected promise).  The thrown value is never
    inspected by the script (both [catch] clauses ignore it). *)
Inductive Exn (A : Type) : Type :=
| Ok    : A -> Exn A
| Throw : Exn A.
Arguments Ok {A} _.
Arguments Throw {A}.

Definition exn_bind {A B} (m : Exn A) (k : A -> Exn B) : Exn B :=
  match m with
  | Ok a => k a
  | Throw => Throw
  end.

(** [try { m } catch { h }] *)
Definition try_catch {A} (m : Exn A) (h : A) : A :=
  match m with
  | Ok a => a
  | Throw => h
  end.

(* ================================================================== *)
(** * Configuration *)
(* ================================================================== *)

Definition LOG_INTERVAL : nat := 100.
Definition TEXT_MIN_CHARS : nat := 200.
Definition TEXT_MAX_CHARS : nat := 10000.

(* ================================================================== *)
(** * External collaborators *)
(* ================================================================== *)

(** What [resolver.resolve4(domain, cb)] does: it calls back with an error,
    calls back with the addresses, or throws synchronously (inside the
    promise executor, which rejects the promise of [dnsLookup]). *)
Inductive Resolve4 : Type :=
| R4Error     : Resolve4
| R4Addresses : list jstring -> Resolve4
| R4Throws    : Resolve4.

(** The response of [axios.get] as far as the script reads it:
    [resp.status], [resp.request.res.responseUrl] (the URL after
    redirects, which the HTTP adapter sets on every response) and
    [resp.data]. *)
Record Response : Type := mkResponse {
  status      : Z;
  responseUrl : jstring;
  data        : jstring
}.

(** One environment answers the calls of one loop iteration.
    - [resolve4]: the resolver;
    - [axios_probe url]: [axios.get(url, {maxRedirects: 5, validateStatus:
      () => true, ...})] of [httpCheck], throwing on a network error;
    - [axios_text url]: the [axios.get(url, {timeout})] of [fetchText]; its
      argument is [httpRes.final_url], a string or [null];
    - [url_hostname u]: [new URL(u).hostname], [Throw] when the constructor
      rejects [u];
    - [cheerio_body_text d]: [cheerio.load(d)], removal of
      [script, style, noscript], then [$("body").text()]. *)
Record Env : Type := mkEnv {
  resolve4          : jstring -> Resolve4;
  axios_probe       : jstring -> Exn Response;
  axios_text        : option jstring -> Exn Response;
  url_hostname      : jstring -> Exn jstring;
  cheerio_body_text : jstring -> Exn jstring
}.

(* ================================================================== *)
(** * Stage operations *)
(* ================================================================== *)

Record DnsResult : Type := mkDns {
  d_has_dns : bool;
  d_dns_ips : option jstring
}.

Record HttpResult : Type := mkHttp {
  h_http_ok     : bool;
  h_final_url   : option jstring;
  h_status_code : option Z;
  h_used_https  : bool
}.

Record TextResult : Type := mkText {
  t_homepage_text : option jstring;
  t_text_ok       : bool
}.

(** [dnsLookup(domain)]: the promise resolves with a result in both
    callback cases and rejects when [resolve4] itself throws. *)
Definition dnsLookup (env : Env) (domain : jstring) : Exn DnsResult :=
  match resolve4 env domain with
  | R4Error => Ok (mkDns false None)
  | R4Addresses addresses => Ok (mkDns true (Some (join (lit ";") addresses)))
  | R4Throws => Throw
  end.

Definition is_digit (c : code_unit) : bool := ((48 <=? c) && (c <=? 57))%N.
Definition is_dot (c : code_unit) : bool := (c =? 46)%N.

(** [/^\d{1,3}(\.\d{1,3}){3}$/] *)
Definition ip_regex : regex :=
  Cat (OneToThree (Class is_digit))
      (Times 3 (Cat (Class is_dot) (OneToThree (Class is_digit)))).

(** [isIpHost(url)] *)
Definition isIpHost (env : Env) (url : jstring) : bool :=
  try_catch
    (exn_bind (url_hostname env url) (fun host =>
     Ok (test ip_regex host)))
    false.

Definition http_not_ok : HttpResult := mkHttp false None None false.

(** The candidate list of [httpCheck]. *)
Definition candidate_urls (domain : jstring) : list jstring :=
  [ lit "https://" ++ domain ++ lit "/";
    lit "https://www." ++ domain ++ lit "/";
    lit "http://" ++ domain ++ lit "/";
    lit "http://www." ++ domain ++ lit "/" ].

Definition success_status (st : Z) : bool := ((200 <=? st) && (st <? 400))%Z.

(** The body of the [try] block of [httpCheck] for one candidate:
    [Ok (Some r)] when it executes [return r], [Ok None] when it falls out
    of the [if], [Throw] when [axios.get] throws. *)
Definition httpCheck_try (env : Env) (url : jstring) : Exn (option HttpResult) :=
  exn_bind (axios_probe env url) (fun resp =>
  if success_status (status resp) then
    let finalUrl := responseUrl resp in
    if isIpHost env finalUrl then Ok (Some http_not_ok)
    else Ok (Some (mkHttp true (Some finalUrl) (Some (status resp))
                          (startsWith (lit "https://") finalUrl)))
  else Ok None).

(** The [for (let url of urls)] loop of [httpCheck].  The second component
    lists the URLs handed to [axios.get], in the order of the calls. *)
Fixpoint httpCheck_loop (env : Env) (urls : list jstring)
  : HttpResult * list jstring :=
  match urls with
  | [] => (http_not_ok, [])
  | url :: rest =>
      match try_catch (httpCheck_try env url) None with
      | Some r => (r, [url])
      | None =>
          let (r, requested) := httpCheck_loop env rest in
          (r, url :: requested)
      end
  end.

Definition httpCheck_run (env : Env) (domain : jstring)
  : HttpResult * list jstring :=
  httpCheck_loop env (candidate_urls domain).

(** [httpCheck(domain)] *)
Definition httpCheck (env : Env) (domain : jstring) : HttpResult :=
  fst (httpCheck_run env domain).

(** The URLs [httpCheck(domain)] requests. *)
Definition httpCheck_requests (env : Env) (domain : jstring) : list jstring :=
  snd (httpCheck_run env domain).

Definition text_not_ok : TextResult := mkText None false.

(** The body of the [try] block of [fetchText]: [Ok (Some r)] when it
    executes [return r], [Ok None] when it falls through to the end. *)
Definition fetchText_try (env : Env) (url : option jstring)
  : Exn (option TextResult) :=
  exn_bind (axios_text env url) (fun resp =>
  if success_status (status resp) then
    exn_bind (cheerio_body_text env (data resp)) (fun text =>
    let text := trim (collapse_spaces text) in
    if TEXT_MIN_CHARS <=? List.length text then
      Ok (Some (mkText (Some (slice0 TEXT_MAX_CHARS text)) true))
    else Ok None)
  else Ok None).

(** [fetchText(url)] *)
Definition fetchText (env : Env) (url : option jstring) : TextResult :=
  match try_catch (fetchText_try env url) None with
  | Some r => r
  | None => text_not_ok
  end.

(* ================================================================== *)
(** * The controller loop of [main] *)
(* ================================================================== *)

(** The values of the [stage] column: ["fail"], ["dns"], ["http"],
    ["text"]. *)
Inductive Stage : Type := StFail | StDns | StHttp | StText.

(** One row of the output batch (the parquet schema of the script). *)
Record DomainRecord : Type := mkRecord {
  domain        : jstring;
  has_dns       : bool;
  dns_ips       : option jstring;
  http_ok       : bool;
  final_url     : option jstring;
  status_code   : option Z;
  used_https    : bool;
  text_ok       : bool;
  homepage_text : option jstring;
  stage         : Stage
}.

(** The six counters declared before the loop. *)
Record Counters : Type := mkCounters {
  dnsCount   : nat;
  httpCount  : nat;
  textCount  : nat;
  dnsErrors  : nat;
  httpErrors : nat;
  textErrors : nat
}.

Inductive StageName : Type := Resolve | Probe | Extract.

(** What an observer of the run sees, in order: a stage call of pass [i]
    together with the value the counters have while the call is in
    flight, and the progress report with the counters it prints.  The
    trace is ghost state: the script keeps no such list. *)
Inductive Event : Type :=
| EvStage    : nat -> StageName -> Counters -> Event
| EvProgress : nat -> Counters -> Event.

(** The mutable locals of [main] during the loop, and the trace. *)
Record MainState : Type := mkState {
  counters : Counters;
  results  : list DomainRecord;
  trace    : list Event
}.

(** How a statement completes: normally, by [continue], or by a throw. *)
Inductive Completion (A : Type) : Type :=
| Normal   : A -> Completion A
| Continue : Completion A
| Thrown   : Completion A.
Arguments Normal {A} _.
Arguments Continue {A}.
Arguments Thrown {A}.

Module Ctl.

(** Statements of the loop body: they read and write the locals of
    [main] and complete as above. *)
Definition M (A : Type) : Type := MainState -> Completion A * MainState.

Definition ret {A} (a : A) : M A := fun s => (Normal a, s).

Definition bind {A B} (m : M A) (k : A -> M B) : M B :=
  fun s =>
    match m s with
    | (Normal a, s') => k a s'
    | (Continue, s') => (Continue, s')
    | (Thrown, s') => (Thrown, s')
    end.

Definition continue {A} : M A := fun s => (Continue, s).

(** [try { m } catch (e) { h }]: the mutations [m] made before it threw
    stay. *)
Definition try_catch_m {A} (m h : M A) : M A :=
  fun s =>
    match m s with
    | (Thrown, s') => h s'
    | other => other
    end.

Definition log (e : Event) (s : MainState) : MainState :=
  mkState (counters s) (results s) (trace s ++ [e]).

(** [await limit(() => f(arg))], where the callee's completion is [e].
    One call is in flight at a time, so the limiter admits it at once;
    the callee is a top-level function and cannot reach the locals of
    [main]. *)
Definition call {A} (i : nat) (name : StageName) (e : Exn A) : M A :=
  fun s =>
    (match e with Ok a => Normal a | Throw => Thrown end,
     log (EvStage i name (counters s)) s).

Definition update (f : Counters -> Counters) : M unit :=
  fun s => (Normal tt, mkState (f (counters s)) (results s) (trace s)).

(** [results.push(r)] *)
Definition push (r : DomainRecord) : M unit :=
  fun s => (Normal tt, mkState (counters s) (results s ++ [r]) (trace s)).

Definition report (done : nat) : M unit :=
  fun s => (Normal tt, log (EvProgress done (counters s)) s).

End Ctl.
Import Ctl.

Notation "x <- m ;; k" := (bind m (fun x => k))
  (at level 61, m at next level, right associativity).
Notation "m ;;; k" := (bind m (fun _ => k))
  (at level 61, right associativity).

(** [dnsCount++] and its five siblings. *)
Definition inc_dnsCount (c : Counters) : Counters :=
  mkCounters (S (dnsCount c)) (httpCount c) (textCount c)
             (dnsErrors c) (httpErrors c) (textErrors c).
Definition inc_httpCount (c : Counters) : Counters :=
  mkCounters (dnsCount c) (S (httpCount c)) (textCount c)
             (dnsErrors c) (httpErrors c) (textErrors c).
Definition inc_textCount (c : Counters) : Counters :=
  mkCounters (dnsCount c) (httpCount c) (S (textCount c))
             (dnsErrors c) (httpErrors c) (textErrors c).
Definition inc_dnsErrors (c : Counters) : Counters :=
  mkCounters (dnsCount c) (httpCount c) (textCount c)
             (S (dnsErrors c)) (httpErrors c) (textErrors c).
Definition inc_httpErrors (c : Counters) : Counters :=
  mkCounters (dnsCount c) (httpCount c) (textCount c)
             (dnsErrors c) (S (httpErrors c)) (textErrors c).
Definition inc_textErrors (c : Counters) : Counters :=
  mkCounters (dnsCount c) (httpCount c) (textCount c)
             (dnsErrors c) (httpErrors c) (S (textErrors c)).

(** What the three awaited stage calls of one pass complete with.  The
    script's own stage functions are [script_stages] below; the loop body
    is written against any behaviour, as its [catch] clause is. *)
Record Stages : Type := mkStages {
  call_dns  : jstring -> Exn DnsResult;
  call_http : jstring -> Exn HttpResult;
  call_text : option jstring -> Exn TextResult
}.

Definition script_stages (env : Env) : Stages :=
  mkStages (dnsLookup env)
           (fun domain => Ok (httpCheck env domain))
           (fun url => Ok (fetchText env url)).

(** The record pushed by the [catch] clause. *)
Definition fail_record (domain : jstring) : DomainRecord :=
  mkRecord domain false None false None None false false None StFail.

(** The progress block at the end of the loop body (the console output
    itself is not modelled, only that the counters are read). *)
Definition progress (i n : nat) : M unit :=
  if ((i + 1) mod LOG_INTERVAL =? 0) || (i + 1 =? n)
  then report (i + 1)
  else ret tt.

(** The body of the [for] loop for row [i] of [n]. *)
Definition iteration (st : Stages) (i n : nat) (domain : jstring) : M unit :=
  try_catch_m
    (let stage := StFail in
     d <- call i Resolve (call_dns st domain) ;;
     let has_dns := d_has_dns d in
     let dns_ips := d_dns_ips d in
     if negb has_dns then
       update inc_dnsErrors ;;;
       push (mkRecord domain has_dns dns_ips false None None false
                      false None stage) ;;;
       continue
     else
     update inc_dnsCount ;;;
     let stage := StDns in
     httpRes <- call i Probe (call_http st domain) ;;
     if negb (h_http_ok httpRes) then
       update inc_httpErrors ;;;
       push (mkRecord domain has_dns dns_ips
                      (h_http_ok httpRes) (h_final_url httpRes)
                      (h_status_code httpRes) (h_used_https httpRes)
                      false None stage) ;;;
       continue
     else
     update inc_httpCount ;;;
     let stage := StHttp in
     textRes <- call i Extract (call_text st (h_final_url httpRes)) ;;
     if negb (t_text_ok textRes) then
       update inc_textErrors ;;;
       push (mkRecord domain has_dns dns_ips
                      (h_http_ok httpRes) (h_final_url httpRes)
                      (h_status_code httpRes) (h_used_https httpRes)
                      (t_text_ok textRes) (t_homepage_text textRes) stage) ;;;
       continue
     else
     update inc_textCount ;;;
     let stage := StText in
     push (mkRecord domain has_dns dns_ips
                    (h_http_ok httpRes) (h_final_url httpRes)
                    (h_status_code httpRes) (h_used_https httpRes)
                    (t_text_ok textRes) (t_homepage_text textRes) stage))
    (update inc_dnsErrors ;;;
     push (fail_record domain)) ;;;
  progress i n.

(** [for (let i = ...; i < rows.length; i++)], entered at index [i] with
    the rows from [i] on.  A throw escaping the body would leave the loop
    (and reject [main]). *)
Fixpoint for_rows (st : nat -> Stages) (n i : nat) (rows : list jstring)
  : M unit :=
  match rows with
  | [] => ret tt
  | domain :: rest =>
      fun s =>
        match iteration (st i) i n domain s with
        | (Thrown, s') => (Thrown, s')
        | (_, s') => for_rows st n (S i) rest s'
        end
  end.

(** A row of the input batch; [None] is a row without a [domain]. *)
Record InputRow : Type := mkRow { row_domain : option jstring }.

(** [if (rec.domain) rows.push(rec)]; only [rows[i].domain] and
    [rows.length] are read afterwards, so the domains are kept. *)
Fixpoint load_rows (input : list InputRow) : list jstring :=
  match input with
  | [] => []
  | rec :: rest =>
      match row_domain rec with
      | Some (c :: d) => (c :: d) :: load_rows rest
      | _ => load_rows rest
      end
  end.

Definition zero_counters : Counters := mkCounters 0 0 0 0 0 0.
Definition initial_state : MainState := mkState zero_counters [] [].

(** The loop of [main] over the loaded rows, for any stage behaviour. *)
Definition main_with (st : nat -> Stages) (input : list InputRow)
  : Completion unit * MainState :=
  let rows := load_rows input in
  for_rows st (List.length rows) 0 rows initial_state.

(** [main]: pass [i] talks to the environment [w i]. *)
Definition main (w : nat -> Env) (input : list InputRow)
  : Completion unit * MainState :=
  main_with (fun i => script_stages (w i)) input.

(** The argument of [writeParquetFile(FINAL_OUT, results)]. *)
Definition written (run : Completion unit * MainState) : list DomainRecord :=
  results (snd run).

(** The locals of [main] after [k] passes. *)
Definition after_passes (st : nat -> Stages) (input : list InputRow) (k : nat)
  : MainState :=
  let rows := load_rows input in
  snd (for_rows st (List.length rows) 0 (firstn k rows) initial_state).

(* ================================================================== *)
(** * Vocabulary of the specification *)
(* ================================================================== *)

(** A group of one to three decimal digits. *)
Definition digit_group (g : jstring) : Prop :=
  1 <= List.length g <= 3 /\ Forall (fun c => is_digit c = true) g.

(** Four dot-separated groups of one to three decimal digits. *)
Definition four_digit_groups (host : jstring) : Prop :=
  exists a b c d,
    host = a ++ lit "." ++ b ++ lit "." ++ c ++ lit "." ++ d
    /\ digit_group a /\ digit_group b /\ digit_group c /\ digit_group d.

(** The hostname of a URL whose host is an IPv6 literal is that literal in
    square brackets. *)
Definition ipv6_literal_host (host : jstring) : Prop :=
  exists body, host = lit "[" ++ body ++ lit "]".

(** A candidate succeeds when the request returns a response whose final
    status lies in [[200,400)]; it fails on an error or another status. *)
Definition candidate_succeeds (env : Env) (url : jstring) : Prop :=
  exists resp, axios_probe env url = Ok resp /\ (200 <= status resp < 400)%Z.

(** What Probe answers at a candidate that returned [resp] with a success
    status. *)
Definition accepted_answer (env : Env) (resp : Response) : HttpResult :=
  if isIpHost env (responseUrl resp) then http_not_ok
  else mkHttp true (Some (responseUrl resp)) (Some (status resp))
              (startsWith (lit "https://") (responseUrl resp)).

(** One of the stage calls made during the pass over [domain] throws. *)
Definition pass_faults (st : Stages) (domain : jstring) : Prop :=
  match call_dns st domain with
  | Throw => True
  | Ok d =>
      d_has_dns d = true /\
      match call_http st domain with
      | Throw => True
      | Ok h => h_http_ok h = true /\ call_text st (h_final_url h) = Throw
      end
  end.

(** The reached-stage marker agrees with the three flags. *)
Definition stage_flags (r : DomainRecord) : Prop :=
  match stage r with
  | StText => has_dns r = true /\ http_ok r = true /\ text_ok r = true
  | StHttp => has_dns r = true /\ http_ok r = true /\ text_ok r = false
  | StDns  => has_dns r = true /\ http_ok r = false
  | StFail => has_dns r = false
  end.

(** Every optional field is absent and every flag is false. *)
Definition all_absent (r : DomainRecord) : Prop :=
  has_dns r = false /\ dns_ips r = None /\ http_ok r = false
  /\ final_url r = None /\ status_code r = None /\ used_https r = false
  /\ text_ok r = false /\ homepage_text r = None.

(** Succeeded plus failed equals attempted, stage by stage, when
    [processed] domains have been through the funnel: every processed
    domain attempted Resolve, every domain whose Resolve succeeded
    attempted Probe, every domain whose Probe succeeded attempted
    Extract. *)
Definition balanced (processed : nat) (c : Counters) : Prop :=
  dnsCount c + dnsErrors c = processed
  /\ httpCount c + httpErrors c = dnsCount c
  /\ textCount c + textErrors c = httpCount c.

(** The counters do not move while a pass is in progress: every stage call
    of pass [i] sees the counters the first stage call of that pass saw. *)
Definition counters_frozen_within_pass (tr : list Event) : Prop :=
  forall i name c c0,
    In (EvStage i name c) tr -> In (EvStage i Resolve c0) tr -> c = c0.

(** The counters a stage call of a pass sees when the pass began with
    [c], if each success counter is incremented as soon as its stage has
    answered. *)
Definition seen_by (name : StageName) (c : Counters) : Counters :=
  match name with
  | Resolve => c
  | Probe => inc_dnsCount c
  | Extract => inc_httpCount (inc_dnsCount c)
  end.

(** Within a pass the counters move only between the stage calls, by the
    success increments of the stages already passed. *)
Definition counters_follow_stages (tr : list Event) : Prop :=
  forall i name c c0,
    In (EvStage i name c) tr -> In (EvStage i Resolve c0) tr ->
    c = seen_by name c0.

(** The number of records whose flag [f] is set. *)
Definition count_flag (f : DomainRecord -> bool) (rs : list DomainRecord)
  : nat :=
  List.length (filter f rs).

(** At a stage call, the equations that do not depend on whether the
    domain in flight counts as processed: the HTTP attempts are the DNS
    successes and the text attempts are the HTTP successes. *)
Definition attempts_accounted (c : Counters) : Prop :=
  httpCount c + httpErrors c = dnsCount c
  /\ textCount c + textErrors c = httpCount c.

(** Succeeded plus failed equals attempted at every point of the run that
    the trace shows: at every stage call and at every progress report. *)
Definition balanced_at_every_point (tr : list Event) : Prop :=
  (forall i name c, In (EvStage i name c) tr -> attempts_accounted c)
  /\ (forall done c, In (EvProgress done c) tr -> balanced done c).

(** The counters seen by the stage calls of pass [i]: balanced when
    Resolve is called; afterwards the stages already passed are counted
    as succeeded and the stage being awaited is an attempt not yet
    counted. *)
Definition in_flight (i : nat) (name : StageName) (c : Counters) : Prop :=
  match name with
  | Resolve => balanced i c
  | Probe =>
      dnsCount c + dnsErrors c = i + 1
      /\ httpCount c + httpErrors c + 1 = dnsCount c
      /\ textCount c + textErrors c = httpCount c
  | Extract =>
      dnsCount c + dnsErrors c = i + 1
      /\ httpCount c + httpErrors c = dnsCount c
      /\ textCount c + textErrors c + 1 = httpCount c
  end.

(** What the loop of [main] maintains from pass to pass. *)
Definition accounts (processed : nat) (s : MainState) : Prop :=
  List.length (results s) = processed
  /\ balanced processed (counters s)
  /\ dnsCount (counters s) = count_flag has_dns (results s)
  /\ httpCount (counters s) = count_flag http_ok (results s)
  /\ textCount (counters s) = count_flag text_ok (results s)
  /\ (forall done c, In (EvProgress done c) (trace s) -> balanced done c)
  /\ (forall i name c, In (EvStage i name c) (trace s) -> in_flight i name c).

(* ================================================================== *)
(** * Reading the input and writing the output *)
(* ================================================================== *)

(** The parquet reader as [main] uses it: [ParquetReader.openFile], the
    answers of the successive [cursor.next()] calls that come before the
    final [null], and [reader.close()]. *)
Record Reader : Type := mkReader {
  open_reader  : Exn unit;
  cursor_next  : list (Exn InputRow);
  close_reader : Exn unit
}.

(** The [while ((rec = await cursor.next()))] loop: the records read, up
    to the end of the cursor or the first throw. *)
Fixpoint read_cursor (answers : list (Exn InputRow)) : Exn (list InputRow) :=
  match answers with
  | [] => Ok []
  | Ok rec :: rest => exn_bind (read_cursor rest) (fun recs => Ok (rec :: recs))
  | Throw :: _ => Throw
  end.

(** Lines 144-151 of [main]: open, read to the end, close. *)
Definition read_input (rd : Reader) : Exn (list InputRow) :=
  exn_bind (open_reader rd) (fun _ =>
  exn_bind (read_cursor (cursor_next rd)) (fun recs =>
  exn_bind (close_reader rd) (fun _ =>
  Ok recs))).

(** The parquet writer as [writeParquetFile] uses it.  Whether an
    [appendRow] call throws may depend on the rows appended before it. *)
Record Writer : Type := mkWriter {
  open_file  : Exn unit;
  append_row : list DomainRecord -> DomainRecord -> Exn unit;
  close_file : Exn unit
}.

(** The output file: whether it was opened, the rows appended to it, and
    whether it was closed. *)
Record FileState : Type := mkFile {
  opened   : bool;
  appended : list DomainRecord;
  closed   : bool
}.

(** [for (const row of rows) await writer.appendRow(row)], with [done] the
    rows already appended. *)
Fixpoint append_all (wr : Writer) (done rows : list DomainRecord)
  : Exn unit * list DomainRecord :=
  match rows with
  | [] => (Ok tt, done)
  | row :: rest =>
      match append_row wr done row with
      | Ok _ => append_all wr (done ++ [row]) rest
      | Throw => (Throw, done)
      end
  end.

(** [writeParquetFile(filename, rows)] *)
Definition writeParquetFile (wr : Writer) (rows : list DomainRecord)
  : Exn unit * FileState :=
  match open_file wr with
  | Throw => (Throw, mkFile false [] false)
  | Ok _ =>
      match append_all wr [] rows with
      | (Throw, done) => (Throw, mkFile true done false)
      | (Ok _, done) =>
          match close_file wr with
          | Ok _ => (Ok tt, mkFile true done true)
          | Throw => (Throw, mkFile true done false)
          end
      end
  end.

(** What a whole run of the script leaves behind. *)
Record Outcome : Type := mkOutcome {
  completion : Exn unit;      (* [main()] fulfilled or rejected *)
  final      : MainState;     (* the locals of [main] *)
  file       : FileState      (* the output file *)
}.

Definition untouched_file : FileState := mkFile false [] false.

(** [main()] from the first line to [writeParquetFile]: read the input,
    run the loop, write the results. *)
Definition main_script (rd : Reader) (w : nat -> Env) (wr : Writer) : Outcome :=
  match read_input rd with
  | Throw => mkOutcome Throw initial_state untouched_file
  | Ok input =>
      match main w input with
      | (Thrown, s) => mkOutcome Throw s untouched_file
      | (_, s) =>
          let (c, f) := writeParquetFile wr (results s) in
          mkOutcome c s f
      end
  end.

(* ================================================================== *)
(** * Further vocabulary *)
(* ================================================================== *)

(** White space occurs in [t] only as single U+0020 characters: every
    white-space code unit is a space and is not followed by white
    space. *)
Fixpoint well_spaced (t : jstring) : bool :=
  match t with
  | [] => true
  | a :: t' =>
      (if is_space a
       then (a =? 32)%N && match t' with
                           | b :: _ => negb (is_space b)
                           | [] => true
                           end
       else true)
      && well_spaced t'
  end.

(** [t] neither begins nor ends with white space. *)
Definition trimmed (t : jstring) : Prop :=
  (forall c rest, t = c :: rest -> is_space c = false)
  /\ (forall c front, t = front ++ [c] -> is_space c = false).

(** No code unit of [s] is a semicolon. *)
Definition no_semicolon (s : jstring) : Prop := ~ In 59%N s.

(** The stage calls a pass makes when its record reaches [st]. *)
Definition calls_for (st : Stage) : list StageName :=
  match st with
  | StFail => [Resolve]
  | StDns => [Resolve; Probe]
  | StHttp => [Resolve; Probe; Extract]
  | StText => [Resolve; Probe; Extract]
  end.

(** The stage calls of pass [i] recorded in a trace, in order. *)
Fixpoint calls_of_pass (i : nat) (tr : list Event) : list StageName :=
  match tr with
  | [] => []
  | EvStage j name _ :: rest =>
      if j =? i then name :: calls_of_pass i rest else calls_of_pass i rest
  | EvProgress _ _ :: rest => calls_of_pass i rest
  end.

(** The number of records that stopped at stage [st]. *)
Definition count_stage (st : Stage) (rs : list DomainRecord) : nat :=
  List.length (filter (fun r => match stage r, st with
                                | StFail, StFail | StDns, StDns
                                | StHttp, StHttp | StText, StText => true
                                | _, _ => false
                                end) rs).

(** The fields of a record agree with its flags: an optional field is
    present exactly when the flag that owns it is set, a later flag is set
    only if the earlier ones are, a present status code is a success
    status, [used_https] tells whether the final URL begins with
    [https://], and a present homepage text has between [TEXT_MIN_CHARS]
    and [TEXT_MAX_CHARS] code units. *)
Definition record_consistent (r : DomainRecord) : Prop :=
  (has_dns r = true <-> dns_ips r <> None)
  /\ (http_ok r = true <-> final_url r <> None)
  /\ (http_ok r = true <-> status_code r <> None)
  /\ (text_ok r = true <-> homepage_text r <> None)
  /\ (text_ok r = true -> http_ok r = true)
  /\ (http_ok r = true -> has_dns r = true)
  /\ (forall st, status_code r = Some st -> (200 <= st < 400)%Z)
  /\ used_https r
     = match final_url r with
       | Some u => startsWith (lit "https://") u
       | None => false
       end
  /\ (forall t, homepage_text r = Some t ->
                TEXT_MIN_CHARS <= List.length t <= TEXT_MAX_CHARS).

(** Pass [i] of [n] (counted from 0) ends on a reporting boundary. *)
Definition report_due (i n : nat) : Prop :=
  (i + 1) mod LOG_INTERVAL = 0 \/ i + 1 = n.

(** What the loop maintains about the counters, whatever the stage calls
    do. *)
Definition tallies (s : MainState) : Prop :=
  dnsErrors (counters s) = count_stage StFail (results s)
  /\ httpErrors (counters s) = count_stage StDns (results s)
  /\ textErrors (counters s) = count_stage StHttp (results s)
  /\ textCount (counters s) = count_stage StText (results s)
  /\ textCount (counters s) <= httpCount (counters s)
  /\ httpCount (counters s) <= dnsCount (counters s).

(** The record [r] is what the stage functions answer in [env] for its
    domain: the DNS fields come from [dnsLookup], the HTTP fields from
    [httpCheck] on the domain, and the text fields from [fetchText] on the
    final URL that [httpCheck] returned. *)
Definition record_from (env : Env) (r : DomainRecord) : Prop :=
  (has_dns r = true ->
   dnsLookup env (domain r) = Ok (mkDns true (dns_ips r))
   /\ httpCheck env (domain r)
      = mkHttp (http_ok r) (final_url r) (status_code r) (used_https r))
  /\ (has_dns r = false ->
      dnsLookup env (domain r) = Throw
      \/ dnsLookup env (domain r) = Ok (mkDns false (dns_ips r)))
  /\ (http_ok r = true ->
      fetchText env (final_url r) = mkText (homepage_text r) (text_ok r)).

(** The row has a non-empty domain. *)
Definition has_domain (rec : InputRow) : bool :=
  match row_domain rec with
  | Some (_ :: _) => true
  | _ => false
  end.

(* ================================================================== *)
(** * Sample environments *)
(* ================================================================== *)

Module Sample.

(** Finite answer tables, keyed by string. *)
Fixpoint lookup {A} (tbl : list (string * A)) (dflt : A) (k : jstring) : A :=
  match tbl with
  | [] => dflt
  | (k', a) :: rest => if jstring_eqb k (lit k') then a else lookup rest dflt k
  end.

Definition page : jstring :=
  lit "  Welcome " ++ repeat 32%N 40 ++ repeat 120%N 300 ++ lit " bye  ".

(** A small network:
    - [a.test] resolves; its secure bare URL is refused, the secure www
      URL answers 200;
    - [ip.test] resolves; its secure bare URL answers 503, the secure
      www URL redirects to a bare IPv4 address and answers 200;
    - [v6.test] resolves; its secure bare URL ends at an IPv6 literal
      and answers 200;
    - [down.test] resolves; every URL answers 503 or is refused;
    - the resolver throws on [boom.test] and reports an error for any
      other name. *)
Definition env : Env :=
  mkEnv
    (lookup [ ("a.test", R4Addresses [lit "192.0.2.1"; lit "192.0.2.2"]);
              ("ip.test", R4Addresses [lit "192.0.2.3"]);
              ("v6.test", R4Addresses [lit "192.0.2.4"]);
              ("down.test", R4Addresses [lit "192.0.2.5"]);
              ("boom.test", R4Throws) ]%string R4Error)
    (lookup [ ("https://www.a.test/",
                Ok (mkResponse 200 (lit "https://www.a.test/home") []));
              ("https://ip.test/",
                Ok (mkResponse 503 (lit "https://ip.test/") []));
              ("https://www.ip.test/",
                Ok (mkResponse 200 (lit "http://10.0.0.1/") []));
              ("http://ip.test/",
                Ok (mkResponse 200 (lit "http://ip.test/") []));
              ("https://v6.test/",
                Ok (mkResponse 200 (lit "http://[::1]/") []));
              ("https://down.test/",
                Ok (mkResponse 503 (lit "https://down.test/") []));
              ("http://down.test/",
                Ok (mkResponse 404 (lit "http://down.test/") [])) ]%string
            Throw)
    (fun url =>
       match url with
       | Some u =>
           lookup [ ("https://www.a.test/home",
                      Ok (mkResponse 200 (lit "https://www.a.test/home")
                                     page)) ]%string Throw u
       | None => Throw
       end)
    (lookup [ ("https://www.a.test/home", Ok (lit "www.a.test"));
              ("https://ip.test/", Ok (lit "ip.test"));
              ("http://ip.test/", Ok (lit "ip.test"));
              ("http://10.0.0.1/", Ok (lit "10.0.0.1"));
              ("http://[::1]/", Ok (lit "[::1]"));
              ("https://down.test/", Ok (lit "down.test"));
              ("http://down.test/", Ok (lit "down.test")) ]%string Throw)
    (fun d => Ok d).

Definition world : nat -> Env := fun _ => env.

Definition input : list InputRow :=
  [ mkRow (Some (lit "a.test")); mkRow (Some (lit "boom.test"));
    mkRow (Some (lit "ip.test")); mkRow (Some (lit "nx.test")) ].

(** A batch with a row lacking the field and a row with an empty one. *)
Definition ragged_input : list InputRow :=
  [ mkRow (Some (lit "a.test")); mkRow None; mkRow (Some []);
    mkRow (Some (lit "down.test")) ].

(** Stage behaviours in which Resolve and Probe answer and one later call
    throws: the Probe call in [probe_throws], the Extract call in
    [extract_throws].  The stage functions of the script never behave so
    (see [script_probe_never_throws]); the [catch] clause of the loop
    allows for it. *)
Definition probe_throws : Stages :=
  mkStages (fun _ => Ok (mkDns true (Some (lit "192.0.2.1"))))
           (fun _ => Throw)
           (fun _ => Ok text_not_ok).

Definition extract_throws : Stages :=
  mkStages (fun _ => Ok (mkDns true (Some (lit "192.0.2.1"))))
           (fun _ => Ok (mkHttp true (Some (lit "https://a.test/"))
                                (Some 200%Z) true))
           (fun _ => Throw).

End Sample.

(* ================================================================== *)
(** * Sample readers and writers *)
(* ================================================================== *)

Module SampleIO.

(** A reader that delivers the sample batch. *)
Definition reader : Reader :=
  mkReader (Ok tt) (map Ok Sample.input) (Ok tt).

(** A reader whose cursor throws after two records. *)
Definition broken_reader : Reader :=
  mkReader (Ok tt) (map Ok (firstn 2 Sample.input) ++ [Throw]) (Ok tt).

(** A writer that accepts everything. *)
Definition writer : Writer :=
  mkWriter (Ok tt) (fun _ _ => Ok tt) (Ok tt).

(** A writer that accepts two rows and throws on the third. *)
Definition full_disk : Writer :=
  mkWriter (Ok tt)
           (fun done _ => if List.length done <? 2 then Ok tt else Throw)
           (Ok tt).

End SampleIO.

(* ================================================================== *)
(** * The pattern matcher agrees with the denotation *)
(* ================================================================== *)

Section RegexCorrect.

Lemma nullable_lang (r : regex) : nullable r = true <-> lang r [].
Proof.
  induction r as [| | p | a IHa b IHb | a IHa b IHb]; simpl.
  - split; [discriminate | tauto].
  - split; auto.
  - split; [discriminate | intros (c & H & _); discriminate].
  - rewrite andb_true_iff, IHa, IHb. split.
    + intros [Ha Hb]. exists [], []. auto.
    + intros (s1 & s2 & E & Ha & Hb).
      symmetry in E. apply app_eq_nil in E as [-> ->]. auto.
  - rewrite orb_true_iff, IHa, IHb. tauto.
Qed.

Lemma deriv_lang (c : code_unit) (r : regex) (s : jstring) :
  lang (deriv c r) s <-> lang r (c :: s).
Proof.
  revert s.
  induction r as [| | p | a IHa b IHb | a IHa b IHb]; intros s; simpl.
  - tauto.
  - split; [tauto | discriminate].
  - destruct (p c) eqn:Hp; simpl.
    + split.
      * intros ->. exists c. auto.
      * intros (c' & E & _). now inversion E.
    + split; [tauto |].
      intros (c' & E & Hc). inversion E; subst. congruence.
  - assert (Hcat : lang (Cat (deriv c a) b) s <->
                   exists s1 s2, c :: s = s1 ++ s2 /\ s1 <> []
                                 /\ lang a s1 /\ lang b s2).
    { simpl. split.
      - intros (s1 & s2 & -> & Ha & Hb).
        exists (c :: s1), s2. rewrite IHa in Ha.
        repeat split; auto. discriminate.
      - intros (s1 & s2 & E & Hne & Ha & Hb).
        destruct s1 as [|c' s1]; [congruence |].
        inversion E; subst. exists s1, s2. rewrite IHa. auto. }
    destruct (nullable a) eqn:Hn.
    + change (lang (Cat (deriv c a) b) s \/ lang (deriv c b) s <->
              exists s1 s2, c :: s = s1 ++ s2 /\ lang a s1 /\ lang b s2).
      rewrite Hcat, IHb. split.
      * intros [(s1 & s2 & E & _ & Ha & Hb) | Hb].
        -- exists s1, s2. auto.
        -- exists [], (c :: s). apply nullable_lang in Hn. auto.
      * intros (s1 & s2 & E & Ha & Hb).
        destruct s1 as [|c' s1].
        -- right. simpl in E. now subst.
        -- left. exists (c' :: s1), s2. repeat split; auto. discriminate.
    + rewrite Hcat. split.
      * intros (s1 & s2 & E & _ & Ha & Hb). exists s1, s2. auto.
      * intros (s1 & s2 & E & Ha & Hb).
        exists s1, s2. repeat split; auto.
        intros ->. apply nullable_lang in Ha. congruence.
  - rewrite IHa, IHb. tauto.
Qed.

Lemma test_lang (r : regex) (s : jstring) : test r s = true <-> lang r s.
Proof.
  revert r. induction s as [|c s IH]; intros r; simpl.
  - apply nullable_lang.
  - rewrite IH. apply deriv_lang.
Qed.

End RegexCorrect.

(* ================================================================== *)
(** * The dotted-quad pattern *)
(* ================================================================== *)

Lemma is_dot_46 (c : code_unit) : is_dot c = true <-> c = 46%N.
Proof. unfold is_dot. apply N.eqb_eq. Qed.

Lemma lang_opt_digit (s : jstring) :
  lang (Opt (Class is_digit)) s <->
  s = [] \/ exists c, s = [c] /\ is_digit c = true.
Proof. simpl. tauto. Qed.

Lemma lang_digit_group (g : jstring) :
  lang (OneToThree (Class is_digit)) g <-> digit_group g.
Proof.
  unfold OneToThree, digit_group.
  change (lang (Cat ?a (Cat ?b ?c)) g) with
    (exists s1 s2, g = s1 ++ s2 /\ lang a s1 /\
       exists t1 t2, s2 = t1 ++ t2 /\ lang b t1 /\ lang c t2).
  split.
  - intros (s1 & s2 & -> & (c1 & -> & H1) & t1 & t2 & -> & H2 & H3).
    apply lang_opt_digit in H2, H3.
    destruct H2 as [-> | (c2 & -> & H2)]; destruct H3 as [-> | (c3 & -> & H3)];
      simpl; split; try lia; repeat constructor; assumption.
  - intros [[Hlo Hhi] Hall].
    destruct g as [|c1 g]; simpl in Hlo; [lia |].
    inversion Hall as [|? ? H1 Hall1]; subst.
    exists [c1], g. split; [reflexivity |]. split; [exists c1; auto |].
    destruct g as [|c2 g].
    + exists [], []. rewrite !lang_opt_digit. auto.
    + inversion Hall1 as [|? ? H2 Hall2]; subst.
      destruct g as [|c3 g].
      * exists [c2], []. rewrite !lang_opt_digit. split; [reflexivity |].
        split; [right; exists c2; auto | auto].
      * inversion Hall2 as [|? ? H3 Hall3]; subst.
        destruct g as [|c4 g]; [| simpl in Hhi; lia].
        exists [c2], [c3]. rewrite !lang_opt_digit. split; [reflexivity |].
        split; right; eauto.
Qed.

Lemma lang_dot_group (s : jstring) :
  lang (Cat (Class is_dot) (OneToThree (Class is_digit))) s <->
  exists g, s = lit "." ++ g /\ digit_group g.
Proof.
  change (lang (Cat ?a ?b) s) with
    (exists s1 s2, s = s1 ++ s2 /\ lang a s1 /\ lang b s2).
  split.
  - intros (s1 & s2 & -> & (c & -> & Hc) & Hg).
    apply is_dot_46 in Hc. subst c. apply lang_digit_group in Hg.
    exists s2. auto.
  - intros (g & -> & Hg). exists (lit "."), g.
    split; [reflexivity |]. split; [exists 46%N; auto |].
    now apply lang_digit_group.
Qed.

(** The pattern of [isIpHost] matches exactly the hosts made of four
    dot-separated groups of one to three digits. *)
Lemma ip_regex_four_digit_groups (host : jstring) :
  test ip_regex host = true <-> four_digit_groups host.
Proof.
  rewrite test_lang. unfold ip_regex, four_digit_groups.
  change (lang (Cat ?a (Times 3 ?g)) host) with
    (exists s1 s2, host = s1 ++ s2 /\ lang a s1 /\
       exists t1 t2, s2 = t1 ++ t2 /\ lang g t1 /\
       exists u1 u2, t2 = u1 ++ u2 /\ lang g u1 /\
       exists v1 v2, u2 = v1 ++ v2 /\ lang g v1 /\ v2 = []).
  split.
  - intros (a & s2 & -> & Ha & t1 & t2 & -> & Hb & u1 & u2 & -> & Hc
            & v1 & v2 & -> & Hd & ->).
    apply lang_digit_group in Ha.
    apply lang_dot_group in Hb as (b & -> & Hb).
    apply lang_dot_group in Hc as (c & -> & Hc).
    apply lang_dot_group in Hd as (d & -> & Hd).
    exists a, b, c, d. rewrite app_nil_r, <- !app_assoc. auto.
  - intros (a & b & c & d & -> & Ha & Hb & Hc & Hd).
    exists a, (lit "." ++ b ++ lit "." ++ c ++ lit "." ++ d).
    split; [reflexivity |]. split; [now apply lang_digit_group |].
    exists (lit "." ++ b), (lit "." ++ c ++ lit "." ++ d).
    split; [now rewrite <- app_assoc |].
    split; [apply lang_dot_group; eauto |].
    exists (lit "." ++ c), (lit "." ++ d).
    split; [now rewrite <- app_assoc |].
    split; [apply lang_dot_group; eauto |].
    exists (lit "." ++ d), []. rewrite app_nil_r.
    split; [reflexivity |]. split; [apply lang_dot_group; eauto | reflexivity].
Qed.

Lemma four_digit_groups_chars (host : jstring) :
  four_digit_groups host ->
  Forall (fun c => is_digit c = true \/ c = 46%N) host.
Proof.
  intros (a & b & c & d & -> & (_ & Ha) & (_ & Hb) & (_ & Hc) & (_ & Hd)).
  assert (Hw : forall g, Forall (fun c => is_digit c = true) g ->
                         Forall (fun c => is_digit c = true \/ c = 46%N) g).
  { intros g Hg. eapply Forall_impl; [| exact Hg]. simpl. auto. }
  change (lit ".") with [46%N].
  repeat (apply Forall_app; split); auto; repeat constructor; auto.
Qed.

Lemma isIpHost_true_iff (env : Env) (url : jstring) :
  isIpHost env url = true <->
  exists host, url_hostname env url = Ok host /\ four_digit_groups host.
Proof.
  unfold isIpHost. destruct (url_hostname env url) as [host |]; simpl.
  - rewrite ip_regex_four_digit_groups. split.
    + intros H. exists host. auto.
    + intros (h & E & H). now inversion E; subst.
  - split; [discriminate | intros (h & E & _); discriminate].
Qed.

(* ================================================================== *)
(** * Probe: [httpCheck] *)
(* ================================================================== *)

Lemma success_status_iff (st : Z) :
  success_status st = true <-> (200 <= st < 400)%Z.
Proof. unfold success_status. rewrite andb_true_iff. lia. Qed.

Lemma httpCheck_try_success (env : Env) (url : jstring) (resp : Response) :
  axios_probe env url = Ok resp ->
  (200 <= status resp < 400)%Z ->
  try_catch (httpCheck_try env url) None = Some (accepted_answer env resp).
Proof.
  intros E Hst. apply success_status_iff in Hst.
  unfold httpCheck_try, accepted_answer. rewrite E. simpl. rewrite Hst.
  now destruct (isIpHost env (responseUrl resp)).
Qed.

Lemma httpCheck_try_failure (env : Env) (url : jstring) :
  ~ candidate_succeeds env url ->
  try_catch (httpCheck_try env url) None = None.
Proof.
  intros Hno. unfold httpCheck_try.
  destruct (axios_probe env url) as [resp |] eqn:E; simpl; [| reflexivity].
  destruct (success_status (status resp)) eqn:Hst; [| reflexivity].
  exfalso. apply Hno. exists resp. split; [exact E |].
  now apply success_status_iff.
Qed.

Lemma httpCheck_loop_all_fail (env : Env) (urls : list jstring) :
  Forall (fun u => ~ candidate_succeeds env u) urls ->
  httpCheck_loop env urls = (http_not_ok, urls).
Proof.
  induction 1 as [| u urls Hu _ IH]; simpl; [reflexivity |].
  now rewrite (httpCheck_try_failure _ _ Hu), IH.
Qed.

Lemma httpCheck_loop_first_success
      (env : Env) (pre : list jstring) (u : jstring) (post : list jstring)
      (resp : Response) :
  Forall (fun v => ~ candidate_succeeds env v) pre ->
  axios_probe env u = Ok resp ->
  (200 <= status resp < 400)%Z ->
  httpCheck_loop env (pre ++ u :: post) = (accepted_answer env resp, pre ++ [u]).
Proof.
  intros Hpre E Hst. induction Hpre as [| v pre Hv _ IH]; simpl.
  - now rewrite (httpCheck_try_success _ _ _ E Hst).
  - now rewrite (httpCheck_try_failure _ _ Hv), IH.
Qed.

(** An accepted final URL is never one [isIpHost] recognises. *)
Lemma httpCheck_loop_ok (env : Env) (urls : list jstring) :
  h_http_ok (fst (httpCheck_loop env urls)) = true ->
  exists u st,
    fst (httpCheck_loop env urls)
    = mkHttp true (Some u) (Some st) (startsWith (lit "https://") u)
    /\ isIpHost env u = false /\ (200 <= st < 400)%Z.
Proof.
  induction urls as [| url rest IH]; simpl; [discriminate |].
  unfold httpCheck_try.
  destruct (axios_probe env url) as [resp |]; simpl.
  - destruct (success_status (status resp)) eqn:Hst; simpl.
    + destruct (isIpHost env (responseUrl resp)) eqn:Hip; simpl;
        [discriminate |].
      intros _. exists (responseUrl resp), (status resp).
      apply success_status_iff in Hst. auto.
    + destruct (httpCheck_loop env rest). exact IH.
  - destruct (httpCheck_loop env rest). exact IH.
Qed.

(** The requests of Probe are an initial segment of the candidate list. *)
Lemma httpCheck_loop_requests_prefix (env : Env) (urls : list jstring) :
  exists later, urls = snd (httpCheck_loop env urls) ++ later.
Proof.
  induction urls as [| url rest [later IH]]; simpl; [now exists [] |].
  destruct (try_catch (httpCheck_try env url) None).
  - exists rest. reflexivity.
  - destruct (httpCheck_loop env rest) as [r requested]. simpl in *.
    exists later. now rewrite <- IH.
Qed.

Lemma candidate_urls_lengths (domain : jstring) :
  map (@List.length code_unit) (candidate_urls domain)
  = [ 9 + List.length domain; 13 + List.length domain;
      8 + List.length domain; 12 + List.length domain ].
Proof.
  unfold candidate_urls. simpl map.
  rewrite !length_app. simpl. repeat f_equal; lia.
Qed.

(** The four candidates are pairwise different, whatever the domain. *)
Lemma candidate_urls_NoDup (domain : jstring) : NoDup (candidate_urls domain).
Proof.
  apply (NoDup_map_inv (@List.length code_unit)).
  rewrite candidate_urls_lengths.
  repeat constructor; simpl; intuition lia.
Qed.

(** C4.  Probe works through the four candidates secure-bare, secure-www,
    insecure-bare, insecure-www in that order.  A candidate succeeds when
    its response has a final status in [[200,400)]; on an error or another
    status the next candidate is tried.  Probe returns at the first
    candidate that succeeds, having requested exactly the candidates up to
    and including it; when none succeeds, all four were requested and the
    answer is not-ok with final URL and status code absent. *)
Theorem httpCheck_candidates_in_order (env : Env) (domain : jstring) :
  candidate_urls domain
  = [ lit "https://" ++ domain ++ lit "/";
      lit "https://www." ++ domain ++ lit "/";
      lit "http://" ++ domain ++ lit "/";
      lit "http://www." ++ domain ++ lit "/" ]
  /\ (exists later,
        candidate_urls domain = httpCheck_requests env domain ++ later)
  /\ (forall pre u post resp,
        candidate_urls domain = pre ++ u :: post ->
        Forall (fun v => ~ candidate_succeeds env v) pre ->
        axios_probe env u = Ok resp ->
        (200 <= status resp < 400)%Z ->
        httpCheck_requests env domain = pre ++ [u]
        /\ httpCheck env domain = accepted_answer env resp)
  /\ (Forall (fun v => ~ candidate_succeeds env v) (candidate_urls domain) ->
        httpCheck_requests env domain = candidate_urls domain
        /\ h_http_ok (httpCheck env domain) = false
        /\ h_final_url (httpCheck env domain) = None
        /\ h_status_code (httpCheck env domain) = None).
Proof.
  split; [reflexivity |]. split; [| split].
  - apply httpCheck_loop_requests_prefix.
  - intros pre u post resp Hurls Hpre E Hst.
    unfold httpCheck_requests, httpCheck, httpCheck_run. rewrite Hurls.
    now rewrite (httpCheck_loop_first_success _ _ _ _ _ Hpre E Hst).
  - intros Hall.
    unfold httpCheck_requests, httpCheck, httpCheck_run.
    rewrite (httpCheck_loop_all_fail _ _ Hall). auto.
Qed.

Lemma sample_refused (url : jstring) :
  axios_probe Sample.env url = Throw -> ~ candidate_succeeds Sample.env url.
Proof. intros E (resp & E' & _). congruence. Qed.

Lemma sample_bad_status (url : jstring) (resp : Response) :
  axios_probe Sample.env url = Ok resp ->
  (status resp <? 400)%Z = false ->
  ~ candidate_succeeds Sample.env url.
Proof.
  intros E Hst (resp' & E' & Hok). rewrite E in E'. inversion E'; subst.
  apply Z.ltb_ge in Hst. lia.
Qed.

(** [a.test]: the refused secure-bare candidate falls through, the
    secure-www candidate is accepted and nothing else is requested;
    [down.test]: all four candidates are requested and Probe is not-ok. *)
Lemma httpCheck_candidates_in_order_witness :
  (httpCheck_requests Sample.env (lit "a.test")
   = [lit "https://a.test/"; lit "https://www.a.test/"]
   /\ httpCheck Sample.env (lit "a.test")
      = accepted_answer Sample.env
          (mkResponse 200 (lit "https://www.a.test/home") []))
  /\ (httpCheck_requests Sample.env (lit "down.test")
      = candidate_urls (lit "down.test")
      /\ h_http_ok (httpCheck Sample.env (lit "down.test")) = false
      /\ h_final_url (httpCheck Sample.env (lit "down.test")) = None
      /\ h_status_code (httpCheck Sample.env (lit "down.test")) = None).
Proof.
  split.
  - destruct (httpCheck_candidates_in_order Sample.env (lit "a.test"))
      as (_ & _ & H & _).
    apply (H [lit "https://a.test/"] (lit "https://www.a.test/")
             [lit "http://a.test/"; lit "http://www.a.test/"]).
    + reflexivity.
    + constructor; [apply sample_refused; reflexivity | constructor].
    + reflexivity.
    + simpl. lia.
  - destruct (httpCheck_candidates_in_order Sample.env (lit "down.test"))
      as (_ & _ & _ & H).
    apply H. repeat constructor.
    + eapply sample_bad_status; reflexivity.
    + apply sample_refused; reflexivity.
    + eapply sample_bad_status; reflexivity.
    + apply sample_refused; reflexivity.
Defined.

Lemma accepted_answer_ip (env : Env) (resp : Response) (host : jstring) :
  url_hostname env (responseUrl resp) = Ok host ->
  four_digit_groups host ->
  accepted_answer env resp = http_not_ok.
Proof.
  intros E Hq. unfold accepted_answer.
  assert (Hip : isIpHost env (responseUrl resp) = true)
    by (apply isIpHost_true_iff; eauto).
  now rewrite Hip.
Qed.

(** C5.  When Probe answers ok, the final URL it returns is one whose
    hostname is not a dotted quad; and when the response Probe stops at
    (the first one with a success status) has a final URL whose host is a
    dotted quad, the answer is not-ok with final URL and status code
    absent. *)
Theorem httpCheck_never_ok_on_dotted_quad (env : Env) (domain : jstring) :
  (h_http_ok (httpCheck env domain) = true ->
   exists u,
     h_final_url (httpCheck env domain) = Some u
     /\ isIpHost env u = false
     /\ forall host, url_hostname env u = Ok host -> ~ four_digit_groups host)
  /\ (forall pre u post resp host,
        candidate_urls domain = pre ++ u :: post ->
        Forall (fun v => ~ candidate_succeeds env v) pre ->
        axios_probe env u = Ok resp ->
        (200 <= status resp < 400)%Z ->
        url_hostname env (responseUrl resp) = Ok host ->
        four_digit_groups host ->
        h_http_ok (httpCheck env domain) = false
        /\ h_final_url (httpCheck env domain) = None
        /\ h_status_code (httpCheck env domain) = None).
Proof.
  split.
  - intros Hok. unfold httpCheck, httpCheck_run in *.
    destruct (httpCheck_loop_ok env _ Hok) as (u & st & -> & Hip & _).
    exists u. repeat split; auto.
    intros host E Hq.
    assert (isIpHost env u = true) by (apply isIpHost_true_iff; eauto).
    congruence.
  - intros pre u post resp host Hurls Hpre E Hst Hhost Hq.
    unfold httpCheck, httpCheck_run. rewrite Hurls.
    rewrite (httpCheck_loop_first_success _ _ _ _ _ Hpre E Hst). simpl.
    rewrite (accepted_answer_ip _ _ _ Hhost Hq). auto.
Qed.

Lemma sample_quad : four_digit_groups (lit "10.0.0.1").
Proof. apply ip_regex_four_digit_groups. reflexivity. Qed.

(** [a.test] is answered ok with a named host; [ip.test] ends at
    [10.0.0.1] and is answered not-ok. *)
Lemma httpCheck_never_ok_on_dotted_quad_witness :
  (exists u,
     h_final_url (httpCheck Sample.env (lit "a.test")) = Some u
     /\ isIpHost Sample.env u = false
     /\ forall host, url_hostname Sample.env u = Ok host
                     -> ~ four_digit_groups host)
  /\ (h_http_ok (httpCheck Sample.env (lit "ip.test")) = false
      /\ h_final_url (httpCheck Sample.env (lit "ip.test")) = None
      /\ h_status_code (httpCheck Sample.env (lit "ip.test")) = None).
Proof.
  split.
  - apply (proj1 (httpCheck_never_ok_on_dotted_quad Sample.env (lit "a.test"))).
    reflexivity.
  - apply (proj2 (httpCheck_never_ok_on_dotted_quad Sample.env (lit "ip.test"))
             [lit "https://ip.test/"] (lit "https://www.ip.test/")
             [lit "http://ip.test/"; lit "http://www.ip.test/"]
             (mkResponse 200 (lit "http://10.0.0.1/") []) (lit "10.0.0.1")).
    + reflexivity.
    + constructor; [eapply sample_bad_status; reflexivity | constructor].
    + reflexivity.
    + simpl. lia.
    + reflexivity.
    + exact sample_quad.
Defined.

(** C9.  When a candidate answers with a success status and a final URL
    whose host is a dotted quad, Probe answers not-ok for the domain at
    once: the requests made are the candidates up to that one, and none of
    the candidates after it is requested. *)
Theorem httpCheck_ip_rejection_is_final
        (env : Env) (domain : jstring)
        (pre : list jstring) (u : jstring) (post : list jstring)
        (resp : Response) (host : jstring) :
  candidate_urls domain = pre ++ u :: post ->
  Forall (fun v => ~ candidate_succeeds env v) pre ->
  axios_probe env u = Ok resp ->
  (200 <= status resp < 400)%Z ->
  url_hostname env (responseUrl resp) = Ok host ->
  four_digit_groups host ->
  httpCheck env domain = mkHttp false None None false
  /\ httpCheck_requests env domain = pre ++ [u]
  /\ forall v, In v post -> ~ In v (httpCheck_requests env domain).
Proof.
  intros Hurls Hpre E Hst Hhost Hq.
  assert (Hrun : httpCheck_run env domain = (http_not_ok, pre ++ [u])).
  { unfold httpCheck_run. rewrite Hurls.
    rewrite (httpCheck_loop_first_success _ _ _ _ _ Hpre E Hst).
    now rewrite (accepted_answer_ip _ _ _ Hhost Hq). }
  unfold httpCheck, httpCheck_requests. rewrite Hrun. simpl.
  repeat split.
  intros v Hpost Hreq.
  pose proof (candidate_urls_NoDup domain) as Hnd. rewrite Hurls in Hnd.
  replace (pre ++ u :: post) with ((pre ++ [u]) ++ post) in Hnd
    by now rewrite <- app_assoc.
  apply NoDup_app_remove_l in Hnd as Hpostnd.
  revert Hnd Hreq Hpost. generalize (pre ++ [u]). intros l Hnd Hreq Hpost.
  induction l as [| x l IH]; simpl in *; [contradiction |].
  inversion Hnd as [| ? ? Hx Hnd']; subst.
  destruct Hreq as [-> | Hreq]; [| now apply IH].
  apply Hx. apply in_or_app. now right.
Qed.

(** [ip.test]: the secure-www candidate ends at [10.0.0.1]; the insecure
    candidates, one of which would have answered 200 under the domain's
    own name, are never requested. *)
Lemma httpCheck_ip_rejection_is_final_witness :
  httpCheck Sample.env (lit "ip.test") = mkHttp false None None false
  /\ httpCheck_requests Sample.env (lit "ip.test")
     = [lit "https://ip.test/"] ++ [lit "https://www.ip.test/"]
  /\ forall v, In v [lit "http://ip.test/"; lit "http://www.ip.test/"]
               -> ~ In v (httpCheck_requests Sample.env (lit "ip.test")).
Proof.
  apply (httpCheck_ip_rejection_is_final Sample.env (lit "ip.test")
           [lit "https://ip.test/"] (lit "https://www.ip.test/")
           [lit "http://ip.test/"; lit "http://www.ip.test/"]
           (mkResponse 200 (lit "http://10.0.0.1/") []) (lit "10.0.0.1")).
  - reflexivity.
  - constructor; [eapply sample_bad_status; reflexivity | constructor].
  - reflexivity.
  - simpl. lia.
  - reflexivity.
  - exact sample_quad.
Defined.

Lemma ipv6_literal_not_quad (host : jstring) :
  ipv6_literal_host host -> ~ four_digit_groups host.
Proof.
  intros (body & ->) Hq. apply four_digit_groups_chars in Hq.
  inversion Hq as [| c l Hc _]; subst.
  destruct Hc as [Hc | Hc]; [vm_compute in Hc |]; discriminate.
Qed.

(** C10.  [isIpHost] answers true exactly when the URL parses and its
    hostname is four dot-separated groups of one to three decimal digits,
    whatever their value ([999.999.999.999] is such a hostname); it answers
    false when the URL does not parse and when the hostname is a bracketed
    IPv6 literal.  So Probe can answer ok with a final URL whose host is
    an IPv6 literal. *)
Theorem isIpHost_dotted_quad_only :
  (forall env url,
      isIpHost env url = true <->
      exists host, url_hostname env url = Ok host /\ four_digit_groups host)
  /\ four_digit_groups (lit "999.999.999.999")
  /\ (forall env url, url_hostname env url = Throw -> isIpHost env url = false)
  /\ (forall env url host,
        url_hostname env url = Ok host -> ipv6_literal_host host ->
        isIpHost env url = false)
  /\ (exists env domain u host,
        h_http_ok (httpCheck env domain) = true
        /\ h_final_url (httpCheck env domain) = Some u
        /\ url_hostname env u = Ok host
        /\ ipv6_literal_host host).
Proof.
  split; [exact isIpHost_true_iff |].
  split; [apply ip_regex_four_digit_groups; reflexivity |].
  split; [| split].
  - intros env url E. unfold isIpHost. now rewrite E.
  - intros env url host E Hv6.
    destruct (isIpHost env url) eqn:Hip; [| reflexivity].
    apply isIpHost_true_iff in Hip as (h & E' & Hq).
    rewrite E in E'. inversion E'; subst.
    now apply ipv6_literal_not_quad in Hv6.
  - exists Sample.env, (lit "v6.test"), (lit "http://[::1]/"), (lit "[::1]").
    repeat split. exists (lit "::1"). reflexivity.
Qed.

(** A URL whose hostname is [999.999.999.999] is taken for an IP host, an
    unparsable URL and the IPv6 literal [[::1]] are not. *)
Lemma isIpHost_dotted_quad_only_witness :
  (forall env url,
      url_hostname env url = Ok (lit "999.999.999.999") ->
      isIpHost env url = true)
  /\ isIpHost Sample.env (lit "not a url") = false
  /\ isIpHost Sample.env (lit "http://[::1]/") = false.
Proof.
  destruct isIpHost_dotted_quad_only as (Hiff & H999 & Hthrow & Hv6 & _).
  split; [| split].
  - intros env url E. apply Hiff. exists (lit "999.999.999.999"). auto.
  - apply Hthrow. reflexivity.
  - apply (Hv6 Sample.env (lit "http://[::1]/") (lit "[::1]")).
    + reflexivity.
    + exists (lit "::1"). reflexivity.
Defined.

(* ================================================================== *)
(** * Extract: [fetchText] *)
(* ================================================================== *)

Lemma text_bounds_ordered : TEXT_MIN_CHARS <= TEXT_MAX_CHARS.
Proof. apply Nat.leb_le. vm_compute. reflexivity. Qed.

Lemma slice0_length (n : nat) (s : jstring) :
  List.length (slice0 n s) = Nat.min n (List.length s).
Proof. apply length_firstn. Qed.

Lemma fetchText_cases (env : Env) (url : option jstring) :
  fetchText env url = text_not_ok
  \/ exists text,
       TEXT_MIN_CHARS <= List.length text
       /\ fetchText env url = mkText (Some (slice0 TEXT_MAX_CHARS text)) true.
Proof.
  unfold fetchText, fetchText_try, try_catch, exn_bind.
  destruct (axios_text env url) as [resp |]; [| now left].
  destruct (success_status (status resp)); [| now left].
  destruct (cheerio_body_text env (data resp)) as [text |]; [| now left].
  destruct (TEXT_MIN_CHARS <=? List.length (trim (collapse_spaces text)))
    eqn:Hmin; [| now left].
  right. exists (trim (collapse_spaces text)).
  apply Nat.leb_le in Hmin. auto.
Qed.

(** C6.  When Extract answers ok the homepage text is present and its
    length lies between [TEXT_MIN_CHARS] (200) and [TEXT_MAX_CHARS]
    (10000); when it answers not-ok the homepage text is absent. *)
Theorem fetchText_length_bounds (env : Env) (url : option jstring) :
  TEXT_MIN_CHARS = 200 /\ TEXT_MAX_CHARS = 10000
  /\ (t_text_ok (fetchText env url) = true ->
      exists text,
        t_homepage_text (fetchText env url) = Some text
        /\ TEXT_MIN_CHARS <= List.length text <= TEXT_MAX_CHARS)
  /\ (t_text_ok (fetchText env url) = false ->
      t_homepage_text (fetchText env url) = None).
Proof.
  split; [reflexivity |]. split; [reflexivity |].
  destruct (fetchText_cases env url) as [-> | (text & Hmin & ->)];
    unfold text_not_ok; cbn [t_text_ok t_homepage_text].
  - split; [discriminate | reflexivity].
  - split; [| discriminate].
    intros _. eexists. split; [reflexivity |].
    rewrite slice0_length. pose proof text_bounds_ordered. lia.
Qed.

(** The sample page has 312 characters once normalised and is accepted;
    a [null] URL is not fetched and the text is absent. *)
Lemma fetchText_length_bounds_witness :
  (exists text,
     t_homepage_text (fetchText Sample.env (Some (lit "https://www.a.test/home")))
     = Some text
     /\ TEXT_MIN_CHARS <= List.length text <= TEXT_MAX_CHARS)
  /\ t_homepage_text (fetchText Sample.env None) = None.
Proof.
  pose proof (fetchText_length_bounds Sample.env
                (Some (lit "https://www.a.test/home"))) as (_ & _ & Hok & _).
  pose proof (fetchText_length_bounds Sample.env None) as (_ & _ & _ & Hno).
  split; [apply Hok | apply Hno]; vm_compute; reflexivity.
Defined.

(* ================================================================== *)
(** * The controller loop *)
(* ================================================================== *)

(** Case analysis on what the stage calls of one pass complete with, in
    the order the loop body makes them. *)
Ltac pass_cases st domain :=
  let Ed := fresh "Edns" in
  let Eh := fresh "Ehttp" in
  let Et := fresh "Etext" in
  destruct (call_dns st domain) as [[[|] ips] |] eqn:Ed;
  [ destruct (call_http st domain) as [[[|] fu sc uh] |] eqn:Eh;
    [ destruct (call_text st fu) as [[ht [|]] |] eqn:Et | | ]
  | | ].

Ltac run_pass st i n domain :=
  unfold iteration, progress, try_catch_m, bind, call, update, push,
    continue, report, ret, log, fail_record;
  pass_cases st domain; cbn [d_has_dns d_dns_ips h_http_ok h_final_url
    h_status_code h_used_https t_text_ok t_homepage_text negb fst snd
    counters results trace];
  try match goal with
      | H : call_text _ _ = _ |- _ => rewrite H
      end;
  cbn [d_has_dns d_dns_ips h_http_ok h_final_url
    h_status_code h_used_https t_text_ok t_homepage_text negb fst snd
    counters results trace];
  try destruct (((i + 1) mod LOG_INTERVAL =? 0) || (i + 1 =? n));
  cbn [fst snd counters results trace].

Section Loop.

Variable st : nat -> Stages.
Variable n : nat.

(** The [catch] clause covers the whole pass: nothing is thrown out of
    the loop body. *)
Lemma iteration_not_thrown (s0 : Stages) (i : nat) (d : jstring)
      (s : MainState) :
  fst (iteration s0 i n d s) <> Thrown.
Proof. run_pass s0 i n d; discriminate. Qed.

Lemma for_rows_step (i : nat) (d : jstring) (rest : list jstring)
      (s : MainState) :
  for_rows st n i (d :: rest) s
  = for_rows st n (S i) rest (snd (iteration (st i) i n d s)).
Proof.
  simpl. pose proof (iteration_not_thrown (st i) i d s) as Hnt.
  destruct (iteration (st i) i n d s) as [[| |] s']; simpl in *;
    congruence.
Qed.

(** The loop runs to its end. *)
Lemma for_rows_normal (rows : list jstring) (i : nat) (s : MainState) :
  fst (for_rows st n i rows s) = Normal tt.
Proof.
  revert i s. induction rows as [| d rest IH]; intros i s.
  - reflexivity.
  - rewrite for_rows_step. apply IH.
Qed.

(** Running the loop over [l1 ++ l2] passes through the state reached
    after [l1]. *)
Lemma for_rows_app (l1 l2 : list jstring) (i : nat) (s : MainState) :
  for_rows st n i (l1 ++ l2) s
  = for_rows st n (i + List.length l1) l2 (snd (for_rows st n i l1 s)).
Proof.
  revert i s. induction l1 as [| d l1 IH]; intros i s.
  - simpl. now rewrite Nat.add_0_r.
  - rewrite <- app_comm_cons, !for_rows_step, IH. simpl List.length.
    now rewrite Nat.add_succ_r.
Qed.

(** Loop invariant rule: [I done s] relates the rows already processed
    to the locals of [main]. *)
Lemma for_rows_invariant (I : list jstring -> MainState -> Prop) :
  (forall done d s,
      I done s ->
      I (done ++ [d])
        (snd (iteration (st (List.length done)) (List.length done) n d s))) ->
  forall rows done s,
    I done s ->
    I (done ++ rows) (snd (for_rows st n (List.length done) rows s)).
Proof.
  intros Hstep rows. induction rows as [| d rest IH]; intros done s HI.
  - now rewrite app_nil_r.
  - rewrite for_rows_step.
    replace (done ++ d :: rest) with ((done ++ [d]) ++ rest)
      by now rewrite <- app_assoc.
    replace (S (List.length done)) with (List.length (done ++ [d]))
      by (rewrite length_app; simpl; lia).
    apply IH, Hstep, HI.
Qed.

Lemma for_rows_invariant_init (I : list jstring -> MainState -> Prop) :
  (forall done d s,
      I done s ->
      I (done ++ [d])
        (snd (iteration (st (List.length done)) (List.length done) n d s))) ->
  I [] initial_state ->
  forall rows, I rows (snd (for_rows st n 0 rows initial_state)).
Proof.
  intros Hstep H0 rows.
  apply (for_rows_invariant I Hstep rows [] initial_state H0).
Qed.

End Loop.

(** Each pass appends one record, for the domain of its row, whose stage
    marker agrees with its flags. *)
Lemma iteration_pushes_one (s0 : Stages) (i n : nat) (d : jstring)
      (s : MainState) :
  exists r,
    results (snd (iteration s0 i n d s)) = results s ++ [r]
    /\ domain r = d /\ stage_flags r.
Proof.
  run_pass s0 i n d; eexists; (split; [reflexivity |]);
    unfold stage_flags; simpl; auto.
Qed.

Lemma for_rows_results (st : nat -> Stages) (n : nat) (rows : list jstring) :
  forall i s,
    exists rs,
      results (snd (for_rows st n i rows s)) = results s ++ rs
      /\ map domain rs = rows
      /\ Forall stage_flags rs.
Proof.
  induction rows as [| d rest IH]; intros i s.
  - exists []. simpl. now rewrite app_nil_r.
  - rewrite for_rows_step.
    destruct (iteration_pushes_one (st i) i n d s) as (r & Hr & Hd & Hf).
    destruct (IH (S i) (snd (iteration (st i) i n d s))) as (rs & Hrs & Hm & Hfs).
    exists (r :: rs). rewrite Hrs, Hr, <- app_assoc. simpl.
    repeat split; [now rewrite Hd, Hm | now constructor].
Qed.

Lemma load_rows_all_named (input : list InputRow) :
  Forall (fun rec => exists d, row_domain rec = Some d /\ d <> []) input ->
  map Some (load_rows input) = map row_domain input.
Proof.
  induction 1 as [| rec rest (d & E & Hne) _ IH]; simpl; [reflexivity |].
  rewrite E. destruct d as [| c d]; [congruence |]. simpl. now rewrite IH.
Qed.

(** C1.  Whatever the stage calls answer or throw, the loop runs to its
    end and the list handed to the parquet writer holds exactly one record
    per loaded row, carrying the row's domain, in the order of the input;
    when every input row has a non-empty domain these are the domains of
    the input rows themselves. *)
Theorem one_record_per_domain (st : nat -> Stages) (w : nat -> Env)
        (input : list InputRow) :
  fst (main_with st input) = Normal tt
  /\ map domain (written (main_with st input)) = load_rows input
  /\ map domain (written (main w input)) = load_rows input
  /\ (Forall (fun rec => exists d, row_domain rec = Some d /\ d <> []) input ->
      List.length (written (main_with st input)) = List.length input
      /\ map (fun r => Some (domain r)) (written (main_with st input))
         = map row_domain input).
Proof.
  assert (Hdom : forall st', map domain (written (main_with st' input))
                             = load_rows input).
  { intros st'. unfold written, main_with.
    destruct (for_rows_results st' (List.length (load_rows input))
                (load_rows input) 0 initial_state) as (rs & -> & Hm & _).
    exact Hm. }
  split; [apply for_rows_normal |]. split; [apply Hdom |].
  split; [apply Hdom |].
  intros Hall. apply load_rows_all_named in Hall.
  assert (Hmap : map (fun r => Some (domain r)) (written (main_with st input))
                 = map row_domain input).
  { rewrite <- Hall, <- (Hdom st), map_map. reflexivity. }
  split; [| exact Hmap].
  apply (f_equal (@List.length _)) in Hmap. now rewrite !length_map in Hmap.
Qed.

(** The sample batch of four named rows yields four records, in order,
    although the resolver throws on the second row. *)
Lemma one_record_per_domain_witness :
  List.length (written (main Sample.world Sample.input)) = 4
  /\ map (fun r => Some (domain r)) (written (main Sample.world Sample.input))
     = map row_domain Sample.input.
Proof.
  apply (one_record_per_domain (fun i => script_stages (Sample.world i))
           Sample.world Sample.input).
  repeat constructor; eexists; (split; [reflexivity | discriminate]).
Defined.

(** C2.  In every record of the output, the stage marker agrees with the
    flags: [text] comes with all three flags set, [http] with [has_dns]
    and [http_ok] set and [text_ok] clear, [dns] with [has_dns] set and
    [http_ok] clear, [fail] with [has_dns] clear. *)
Theorem stage_agrees_with_flags (st : nat -> Stages) (w : nat -> Env)
        (input : list InputRow) (r : DomainRecord) :
  In r (written (main_with st input)) \/ In r (written (main w input)) ->
  (stage r = StText ->
   has_dns r = true /\ http_ok r = true /\ text_ok r = true)
  /\ (stage r = StHttp ->
      has_dns r = true /\ http_ok r = true /\ text_ok r = false)
  /\ (stage r = StDns -> has_dns r = true /\ http_ok r = false)
  /\ (stage r = StFail -> has_dns r = false).
Proof.
  intros Hin.
  assert (Hflags : stage_flags r).
  { assert (Hany : forall st', In r (written (main_with st' input))
                               -> stage_flags r).
    { intros st'. unfold written, main_with.
      destruct (for_rows_results st' (List.length (load_rows input))
                  (load_rows input) 0 initial_state) as (rs & -> & _ & Hf).
      simpl. intros Hr. rewrite Forall_forall in Hf. now apply Hf. }
    destruct Hin as [Hin | Hin]; eapply Hany; exact Hin. }
  unfold stage_flags in Hflags.
  destruct (stage r); repeat split; intros; try discriminate; tauto.
Qed.

(** The first record of the sample run reached [text] and has its three
    flags set. *)
Lemma stage_agrees_with_flags_witness :
  exists r,
    nth_error (written (main Sample.world Sample.input)) 0 = Some r
    /\ stage r = StText
    /\ has_dns r = true /\ http_ok r = true /\ text_ok r = true.
Proof.
  destruct (written (main Sample.world Sample.input)) as [| r rest] eqn:E;
    [vm_compute in E; discriminate |].
  exists r. split; [reflexivity |].
  assert (Hst : stage r = StText).
  { vm_compute in E. now inversion E. }
  split; [exact Hst |].
  apply (stage_agrees_with_flags (fun i => script_stages (Sample.world i))
           Sample.world Sample.input r); [| exact Hst].
  right. rewrite E. now left.
Defined.

(* ------------------------------------------------------------------ *)
(** ** Faults *)

(** A pass in which a stage call throws ends in the [catch] clause. *)
Lemma iteration_fault (s0 : Stages) (i n : nat) (d : jstring)
      (s : MainState) :
  pass_faults s0 d ->
  results (snd (iteration s0 i n d s)) = results s ++ [fail_record d]
  /\ dnsErrors (counters (snd (iteration s0 i n d s)))
     = S (dnsErrors (counters s))
  /\ httpErrors (counters (snd (iteration s0 i n d s)))
     = httpErrors (counters s)
  /\ textErrors (counters (snd (iteration s0 i n d s)))
     = textErrors (counters s).
Proof.
  unfold pass_faults.
  run_pass s0 i n d; simpl; intros Hf;
    repeat match goal with
           | H : _ /\ _ |- _ => destruct H
           end;
    try discriminate; try contradiction; auto.
Qed.

Lemma for_rows_results_length (st : nat -> Stages) (n : nat)
      (rows : list jstring) (i : nat) (s : MainState) :
  List.length (results (snd (for_rows st n i rows s)))
  = List.length (results s) + List.length rows.
Proof.
  destruct (for_rows_results st n rows i s) as (rs & -> & Hm & _).
  rewrite length_app. f_equal. rewrite <- Hm. now rewrite length_map.
Qed.

Lemma firstn_snoc (rows : list jstring) (i : nat) (d : jstring) :
  nth_error rows i = Some d -> firstn (S i) rows = firstn i rows ++ [d].
Proof.
  revert i. induction rows as [| x rows IH]; intros [| i] E;
    simpl in *; try discriminate.
  - now inversion E.
  - now rewrite (IH i E).
Qed.

(** The state after pass [i] is the loop body applied to the state before
    it. *)
Lemma after_passes_succ (st : nat -> Stages) (input : list InputRow)
      (i : nat) (d : jstring) :
  nth_error (load_rows input) i = Some d ->
  after_passes st input (S i)
  = snd (iteration (st i) i (List.length (load_rows input)) d
                   (after_passes st input i)).
Proof.
  intros E. unfold after_passes.
  assert (Hi : i < List.length (load_rows input))
    by (apply nth_error_Some; congruence).
  rewrite (firstn_snoc _ _ _ E), for_rows_app, for_rows_step.
  cbn [for_rows ret snd Nat.add].
  now rewrite length_firstn, Nat.min_l by lia.
Qed.

(** The finished run is the state after all passes, and it extends the
    results of every earlier state. *)
Lemma after_passes_all (st : nat -> Stages) (input : list InputRow) :
  snd (main_with st input)
  = after_passes st input (List.length (load_rows input)).
Proof. unfold after_passes, main_with. now rewrite firstn_all. Qed.

Lemma results_extend (st : nat -> Stages) (input : list InputRow) (k : nat) :
  exists rs,
    written (main_with st input) = results (after_passes st input k) ++ rs.
Proof.
  unfold written, main_with, after_passes.
  pose proof (for_rows_app st (List.length (load_rows input))
                (firstn k (load_rows input)) (skipn k (load_rows input))
                0 initial_state) as Happ.
  rewrite firstn_skipn in Happ. rewrite Happ.
  destruct (for_rows_results st (List.length (load_rows input))
              (skipn k (load_rows input))
              (0 + List.length (firstn k (load_rows input)))
              (snd (for_rows st (List.length (load_rows input)) 0
                             (firstn k (load_rows input)) initial_state)))
    as (rs & -> & _).
  now exists rs.
Qed.

Lemma after_passes_results_length (st : nat -> Stages)
      (input : list InputRow) (k : nat) :
  List.length (results (after_passes st input k))
  = Nat.min k (List.length (load_rows input)).
Proof.
  unfold after_passes. rewrite for_rows_results_length, length_firstn.
  reflexivity.
Qed.

(** C3.  When a stage call of the pass over row [i] throws, the run is not
    aborted: the loop still runs to its end with one record per row; the
    record of row [i] has stage [fail], [has_dns] false, every optional
    field absent and every flag false; and the pass adds one to the DNS
    failure counter (and nothing to the other failure counters). *)
Theorem fault_recorded_as_fail (st : nat -> Stages) (input : list InputRow)
        (i : nat) (d : jstring) :
  nth_error (load_rows input) i = Some d ->
  pass_faults (st i) d ->
  fst (main_with st input) = Normal tt
  /\ map domain (written (main_with st input)) = load_rows input
  /\ (exists r,
        nth_error (written (main_with st input)) i = Some r
        /\ domain r = d /\ stage r = StFail /\ all_absent r)
  /\ dnsErrors (counters (after_passes st input (S i)))
     = S (dnsErrors (counters (after_passes st input i)))
  /\ httpErrors (counters (after_passes st input (S i)))
     = httpErrors (counters (after_passes st input i))
  /\ textErrors (counters (after_passes st input (S i)))
     = textErrors (counters (after_passes st input i)).
Proof.
  intros E Hf.
  assert (Hi : i < List.length (load_rows input))
    by (apply nth_error_Some; congruence).
  pose proof (iteration_fault (st i) i (List.length (load_rows input)) d
                (after_passes st input i) Hf) as (Hres & Hd & Hh & Ht).
  rewrite <- (after_passes_succ st input i d E) in Hres, Hd, Hh, Ht.
  split; [apply for_rows_normal |].
  split.
  { unfold written, main_with.
    destruct (for_rows_results st (List.length (load_rows input))
                (load_rows input) 0 initial_state) as (rs & -> & Hm & _).
    exact Hm. }
  split; [| auto].
  exists (fail_record d).
  destruct (results_extend st input (S i)) as (rs & ->).
  rewrite Hres, <- app_assoc.
  rewrite nth_error_app2
    by (rewrite after_passes_results_length; lia).
  rewrite after_passes_results_length, Nat.min_l, Nat.sub_diag by lia.
  simpl. unfold all_absent. simpl. repeat split.
Qed.

(** The resolver throws on [boom.test], the second row of the sample
    batch. *)
Lemma fault_recorded_as_fail_witness :
  fst (main Sample.world Sample.input) = Normal tt
  /\ map domain (written (main Sample.world Sample.input))
     = load_rows Sample.input
  /\ (exists r,
        nth_error (written (main Sample.world Sample.input)) 1 = Some r
        /\ domain r = lit "boom.test" /\ stage r = StFail /\ all_absent r)
  /\ dnsErrors (counters (after_passes
                            (fun i => script_stages (Sample.world i))
                            Sample.input 2))
     = S (dnsErrors (counters (after_passes
                                 (fun i => script_stages (Sample.world i))
                                 Sample.input 1)))
  /\ httpErrors (counters (after_passes
                             (fun i => script_stages (Sample.world i))
                             Sample.input 2))
     = httpErrors (counters (after_passes
                               (fun i => script_stages (Sample.world i))
                               Sample.input 1))
  /\ textErrors (counters (after_passes
                             (fun i => script_stages (Sample.world i))
                             Sample.input 2))
     = textErrors (counters (after_passes
                               (fun i => script_stages (Sample.world i))
                               Sample.input 1)).
Proof.
  apply (fault_recorded_as_fail (fun i => script_stages (Sample.world i))
           Sample.input 1 (lit "boom.test")).
  - reflexivity.
  - exact I.
Defined.

(** The same holds when it is the Probe call or the Extract call that
    throws, which the stage functions of the script never do. *)
Lemma later_stage_fault_recorded_as_fail :
  map stage (written (main_with (fun _ => Sample.probe_throws) Sample.input))
  = [StFail; StFail; StFail; StFail]
  /\ map stage (written (main_with (fun _ => Sample.extract_throws)
                                   Sample.input))
     = [StFail; StFail; StFail; StFail].
Proof. split; reflexivity. Qed.

(* ------------------------------------------------------------------ *)
(** ** Counters *)

(** Of the three stage calls only Resolve can throw: [httpCheck] and
    [fetchText] catch everything inside themselves. *)
Lemma script_probe_never_throws (env : Env) (domain : jstring) :
  call_http (script_stages env) domain <> Throw
  /\ forall url, call_text (script_stages env) url <> Throw.
Proof. split; [| intros url]; discriminate. Qed.

Lemma count_flag_snoc (f : DomainRecord -> bool) (rs : list DomainRecord)
      (r : DomainRecord) :
  count_flag f (rs ++ [r]) = count_flag f rs + (if f r then 1 else 0).
Proof.
  unfold count_flag. rewrite filter_app, length_app. simpl.
  now destruct (f r).
Qed.

Ltac trace_cases H :=
  repeat (apply in_app_or in H; destruct H as [H | H]);
  simpl in H;
  repeat match type of H with
         | _ \/ _ => destruct H as [H | H]
         end;
  try discriminate H; try contradiction.

Lemma iteration_accounts (env : Env) (i n : nat) (d : jstring)
      (s : MainState) :
  accounts i s ->
  accounts (i + 1) (snd (iteration (script_stages env) i n d s)).
Proof.
  intros (Hlen & (Hd & Hh & Ht) & Hcd & Hch & Hct & Hrep & Hfl).
  unfold accounts.
  run_pass (script_stages env) i n d;
    try discriminate;
    (split; [rewrite length_app; simpl; lia |]);
    (split; [unfold balanced; simpl; lia |]);
    rewrite !count_flag_snoc; simpl;
    (split; [lia |]); (split; [lia |]); (split; [lia |]);
    (split;
     [ intros m c' Hin; trace_cases Hin; auto;
       inversion Hin; subst; unfold balanced; simpl; lia
     | intros j name c' Hin; trace_cases Hin; auto;
       inversion Hin; subst; unfold in_flight, balanced; simpl; lia ]).
Qed.

Lemma after_passes_accounts (w : nat -> Env) (input : list InputRow)
      (k : nat) :
  accounts (List.length (firstn k (load_rows input)))
           (after_passes (fun i => script_stages (w i)) input k).
Proof.
  unfold after_passes.
  apply (for_rows_invariant_init (fun i => script_stages (w i))
           (List.length (load_rows input))
           (fun done s => accounts (List.length done) s)).
  - intros done d s Hacc. rewrite length_app. simpl.
    now apply iteration_accounts.
  - unfold accounts, balanced, count_flag. simpl. intuition.
Qed.

(** C7, read at every point of the run, fails on the sample run: while
    the Probe call for [a.test] is awaited, [dnsCount] is already 1 (one
    domain whose Resolve succeeded) and [httpCount + httpErrors] is still
    0. *)
Lemma balanced_at_every_point_fails :
  ~ balanced_at_every_point (trace (snd (main Sample.world Sample.input))).
Proof.
  intros [Hcalls _].
  assert (Hacc : attempts_accounted (inc_dnsCount zero_counters)).
  { apply (Hcalls 0 Probe). vm_compute. auto. }
  destruct Hacc as [Hhttp _]. discriminate Hhttp.
Qed.

(** C7, amended.  After any number [k] of passes of [main] (in particular
    when the run has ended), and at every progress report, each stage's
    succeeded count plus its failed count equals the number of attempts at
    that stage: for DNS the number of domains processed so far, for HTTP
    the number of domains whose Resolve succeeded, for text the number of
    domains whose Probe succeeded.  While a pass is in progress the stage
    call being awaited is an attempt not yet counted as succeeded or
    failed. *)
Theorem balanced_after_every_pass (w : nat -> Env)
        (input : list InputRow) (k : nat) :
  let s := after_passes (fun i => script_stages (w i)) input k in
  let c := counters s in
  List.length (results s) = Nat.min k (List.length (load_rows input))
  /\ dnsCount c + dnsErrors c = List.length (results s)
  /\ httpCount c + httpErrors c = count_flag has_dns (results s)
  /\ textCount c + textErrors c = count_flag http_ok (results s)
  /\ dnsCount c = count_flag has_dns (results s)
  /\ httpCount c = count_flag http_ok (results s)
  /\ textCount c = count_flag text_ok (results s)
  /\ (forall done c', In (EvProgress done c') (trace s) -> balanced done c')
  /\ (forall i name c', In (EvStage i name c') (trace s) -> in_flight i name c')
  /\ snd (main w input)
     = after_passes (fun i => script_stages (w i)) input
                    (List.length (load_rows input)).
Proof.
  intros s c.
  pose proof (after_passes_accounts w input k)
    as (Hlen & (Hd & Hh & Ht) & Hcd & Hch & Hct & Hrep & Hfl).
  fold s in Hlen, Hd, Hh, Ht, Hcd, Hch, Hct, Hrep, Hfl.
  fold c in Hd, Hh, Ht, Hcd, Hch, Hct.
  rewrite length_firstn in Hlen, Hd.
  split; [exact Hlen |]. split; [lia |]. split; [lia |]. split; [lia |].
  split; [exact Hcd |]. split; [exact Hch |]. split; [exact Hct |].
  split; [exact Hrep |]. split; [exact Hfl |]. apply after_passes_all.
Qed.

(** The accounting is that of the script's own stage functions.  Were the
    Probe call to throw after Resolve succeeded, the pass would count the
    domain both as a DNS success and as a DNS failure. *)
Lemma accounting_needs_total_probe :
  let c := counters (snd (main_with (fun _ => Sample.probe_throws)
                                    Sample.input)) in
  dnsCount c + dnsErrors c = 8
  /\ List.length (load_rows Sample.input) = 4.
Proof. split; reflexivity. Qed.

(** The progress block sits after the [try] statement, so a pass that
    leaves by [continue] skips it: in the sample run the last row fails
    Resolve and no report is made for the final domain; had it thrown
    instead, the report would have been made. *)
Lemma no_report_after_continue :
  (forall done c,
      ~ In (EvProgress done c) (trace (snd (main Sample.world Sample.input))))
  /\ In (EvProgress 2 (mkCounters 1 1 1 1 0 0))
        (trace (snd (main Sample.world (firstn 2 Sample.input)))).
Proof.
  split.
  - intros done c Hin. vm_compute in Hin.
    repeat match type of Hin with
           | _ \/ _ => destruct Hin as [Hin | Hin]
           end; try discriminate Hin; contradiction.
  - vm_compute. auto 10.
Qed.

(* ------------------------------------------------------------------ *)
(** ** Where the counters move *)

(** A stage call leaves the locals of [main] other than the trace as they
    are. *)
Lemma call_frame (A : Type) (i : nat) (name : StageName) (e : Exn A)
      (s : MainState) :
  counters (snd (call i name e s)) = counters s
  /\ results (snd (call i name e s)) = results s.
Proof. split; reflexivity. Qed.

(** The stage calls of one pass, with the counters each of them sees. *)
Lemma iteration_trace (s0 : Stages) (i n : nat) (d : jstring)
      (s : MainState) :
  exists evs,
    trace (snd (iteration s0 i n d s)) = trace s ++ evs
    /\ In (EvStage i Resolve (counters s)) evs
    /\ forall j name c,
         In (EvStage j name c) evs ->
         j = i /\ c = seen_by name (counters s).
Proof.
  run_pass s0 i n d; rewrite <- ?app_assoc; simpl;
    eexists; (split; [reflexivity |]); (split; [simpl; auto |]);
    intros j name c Hin; simpl in Hin;
    repeat match type of Hin with
           | _ \/ _ => destruct Hin as [Hin | Hin]
           end;
    try contradiction; try discriminate Hin;
    inversion Hin; subst; auto.
Qed.

Lemma main_with_trace (st : nat -> Stages) (n : nat) (rows : list jstring) :
  let tr := trace (snd (for_rows st n 0 rows initial_state)) in
  (forall j name c, In (EvStage j name c) tr -> j < List.length rows)
  /\ counters_follow_stages tr.
Proof.
  apply (for_rows_invariant_init st n
           (fun done s =>
              (forall j name c, In (EvStage j name c) (trace s)
                                -> j < List.length done)
              /\ counters_follow_stages (trace s))).
  - intros done d s [Hold Hfollow].
    destruct (iteration_trace (st (List.length done)) (List.length done) n d s)
      as (evs & -> & Hfirst & Hnew).
    rewrite length_app. simpl. split.
    + intros j name c Hin. apply in_app_or in Hin as [Hin | Hin].
      * apply Hold in Hin. lia.
      * apply Hnew in Hin as [-> _]. lia.
    + intros j name c c0 Hin Hin0.
      apply in_app_or in Hin as [Hin | Hin];
        apply in_app_or in Hin0 as [Hin0 | Hin0].
      * now apply (Hfollow j name c c0).
      * apply Hold in Hin. apply Hnew in Hin0 as [-> _]. lia.
      * apply Hold in Hin0. apply Hnew in Hin as [-> _]. lia.
      * apply Hnew in Hin as [_ ->]. now apply Hnew in Hin0 as [_ ->].
  - split; intros j name c; simpl; [intros [] | intros c0 []].
Qed.

(** C8, as the specification has it, fails on the sample run: the Probe
    call for [a.test] already sees [dnsCount = 1], while the Resolve call
    of the same pass saw all counters at zero. *)
Lemma counters_frozen_within_pass_fails :
  ~ counters_frozen_within_pass (trace (snd (main Sample.world Sample.input))).
Proof.
  intros Hfrozen.
  specialize (Hfrozen 0 Probe (inc_dnsCount zero_counters) zero_counters).
  assert (Heq : inc_dnsCount zero_counters = zero_counters).
  { apply Hfrozen; vm_compute; auto. }
  discriminate Heq.
Qed.

(** C8, amended.  No stage call changes the counters while it is in
    flight.  The controller itself moves them between the stage calls of a
    pass: in every run, the Probe call of a pass sees [dnsCount] already
    incremented, and the Extract call sees [dnsCount] and [httpCount]
    already incremented, relative to what the Resolve call of the same
    pass saw. *)
Theorem counters_move_between_stage_calls :
  (forall (A : Type) i name (e : Exn A) s,
      counters (snd (call i name e s)) = counters s)
  /\ (forall st input,
        counters_follow_stages (trace (snd (main_with st input))))
  /\ (forall w input,
        counters_follow_stages (trace (snd (main w input)))).
Proof.
  split; [intros; reflexivity |].
  assert (Hall : forall st input,
             counters_follow_stages (trace (snd (main_with st input)))).
  { intros st input. unfold main_with.
    apply (main_with_trace st (List.length (load_rows input))
             (load_rows input)). }
  split; [exact Hall |]. intros w input. apply Hall.
Qed.

(* ================================================================== *)
(** * More on Extract: the normal form of the stored text *)
(* ================================================================== *)

Section Normalisation.

(** After a white-space character, [collapse_spaces] resumes at the next
    character that is not white space. *)
Lemma collapse_spaces_space (c : code_unit) (s : jstring) :
  is_space c = true ->
  collapse_spaces (c :: s) = 32%N :: collapse_spaces (drop_spaces s).
Proof.
  intros Hc. simpl. rewrite Hc. f_equal.
  induction s as [| d s IH]; [reflexivity |].
  simpl. destruct (is_space d) eqn:Hd; [exact IH |].
  simpl. now rewrite Hd.
Qed.

Lemma collapse_spaces_other (c : code_unit) (s : jstring) :
  is_space c = false ->
  collapse_spaces (c :: s) = c :: collapse_spaces s.
Proof. intros Hc. simpl. now rewrite Hc. Qed.

Lemma drop_spaces_head (s : jstring) :
  drop_spaces s = []
  \/ exists d rest, drop_spaces s = d :: rest /\ is_space d = false.
Proof.
  induction s as [| c s IH]; [now left |].
  simpl. destruct (is_space c) eqn:Hc; [exact IH |].
  right. eauto.
Qed.

Lemma drop_spaces_length (s : jstring) :
  List.length (drop_spaces s) <= List.length s.
Proof.
  induction s as [| c s IH]; simpl; [lia |].
  destruct (is_space c); simpl; lia.
Qed.

(** What [drop_spaces] removes is a run of white space at the front. *)
Lemma drop_spaces_suffix (s : jstring) :
  exists front,
    s = front ++ drop_spaces s /\ Forall (fun c => is_space c = true) front.
Proof.
  induction s as [| c s (front & E & Hf)]; [now exists [] |].
  simpl. destruct (is_space c) eqn:Hc.
  - exists (c :: front). split; [simpl; now f_equal | now constructor].
  - now exists [].
Qed.

Lemma drop_spaces_fixed (s : jstring) :
  (forall c rest, s = c :: rest -> is_space c = false) ->
  drop_spaces s = s.
Proof.
  destruct s as [| c s]; [reflexivity |].
  intros H. simpl. now rewrite (H c s eq_refl).
Qed.

Lemma is_space_32 : is_space 32%N = true.
Proof. reflexivity. Qed.

(** The output of [collapse_spaces] is well spaced. *)
Lemma collapse_spaces_well_spaced (s : jstring) :
  well_spaced (collapse_spaces s) = true.
Proof.
  remember (List.length s) as n eqn:Hn.
  assert (Hle : List.length s <= n) by lia. clear Hn.
  revert s Hle. induction n as [| n IH]; intros [| c s] Hle;
    simpl in Hle; try reflexivity; try lia.
  destruct (is_space c) eqn:Hc.
  - rewrite (collapse_spaces_space c s Hc).
    assert (Hrest : well_spaced (collapse_spaces (drop_spaces s)) = true).
    { apply IH. pose proof (drop_spaces_length s). lia. }
    cbn [well_spaced]. rewrite is_space_32, Hrest.
    destruct (drop_spaces_head s) as [-> | (d & rest & -> & Hd)].
    + reflexivity.
    + rewrite (collapse_spaces_other d rest Hd). now rewrite Hd.
  - rewrite (collapse_spaces_other c s Hc).
    cbn [well_spaced]. rewrite Hc. apply IH. lia.
Qed.

(** On a well-spaced string [collapse_spaces] changes nothing. *)
Lemma collapse_spaces_fixed (t : jstring) :
  well_spaced t = true -> collapse_spaces t = t.
Proof.
  induction t as [| a t IH]; [reflexivity |].
  cbn [well_spaced]. intros H. apply andb_true_iff in H as [Ha Ht].
  destruct (is_space a) eqn:Hsp.
  - apply andb_true_iff in Ha as [Ha Hnext]. apply N.eqb_eq in Ha. subst a.
    rewrite (collapse_spaces_space _ t Hsp).
    destruct t as [| b t]; [reflexivity |].
    apply negb_true_iff in Hnext.
    simpl drop_spaces. rewrite Hnext. now rewrite (IH Ht).
  - rewrite (collapse_spaces_other a t Hsp). now rewrite (IH Ht).
Qed.

Lemma well_spaced_app_l (a b : jstring) :
  well_spaced (a ++ b) = true -> well_spaced a = true.
Proof.
  induction a as [| x a IH]; [reflexivity |].
  cbn [well_spaced app]. intros H. apply andb_true_iff in H as [Hx Hrest].
  rewrite (IH Hrest), andb_true_r.
  destruct (is_space x); [| reflexivity].
  apply andb_true_iff in Hx as [Hx Hnext]. rewrite Hx. simpl.
  destruct a as [| y a]; [reflexivity | exact Hnext].
Qed.

Lemma well_spaced_app_r (a b : jstring) :
  well_spaced (a ++ b) = true -> well_spaced b = true.
Proof.
  induction a as [| x a IH]; [auto |].
  cbn [well_spaced app]. intros H. apply andb_true_iff in H as [_ Hrest].
  now apply IH.
Qed.

Lemma well_spaced_spaces (a post : jstring) (x y : code_unit) :
  well_spaced (a ++ x :: y :: post) = true ->
  is_space x = true -> is_space y = false.
Proof.
  intros H Hx. apply well_spaced_app_r in H.
  cbn [well_spaced] in H. rewrite Hx in H.
  apply andb_true_iff in H as [H _]. apply andb_true_iff in H as [_ H].
  now apply negb_true_iff in H.
Qed.

Lemma well_spaced_only_32 (t : jstring) (c : code_unit) :
  well_spaced t = true -> In c t -> is_space c = true -> c = 32%N.
Proof.
  induction t as [| a t IH]; [contradiction |].
  cbn [well_spaced]. intros H [-> | Hin] Hc.
  - rewrite Hc in H. apply andb_true_iff in H as [H _].
    apply andb_true_iff in H as [H _]. now apply N.eqb_eq in H.
  - apply andb_true_iff in H as [_ H]. now apply IH.
Qed.

Lemma trim_back (s : jstring) :
  exists back,
    drop_spaces s = trim s ++ back
    /\ Forall (fun c => is_space c = true) back.
Proof.
  unfold trim.
  destruct (drop_spaces_suffix (rev (drop_spaces s))) as (kcab & E & Hb).
  exists (rev kcab). split; [| now apply Forall_rev].
  apply (f_equal (@rev code_unit)) in E.
  now rewrite rev_involutive, rev_app_distr in E.
Qed.

(** [trim] cuts a run of white space off each end. *)
Lemma trim_infix (s : jstring) :
  exists front back,
    s = front ++ trim s ++ back
    /\ Forall (fun c => is_space c = true) front
    /\ Forall (fun c => is_space c = true) back.
Proof.
  destruct (drop_spaces_suffix s) as (front & E1 & Hf).
  destruct (trim_back s) as (back & E2 & Hb).
  exists front, back. rewrite <- E2. auto.
Qed.

Lemma trim_trimmed (s : jstring) : trimmed (trim s).
Proof.
  split.
  - intros c rest E.
    destruct (trim_back s) as (back & Hs & _). rewrite E in Hs.
    destruct (drop_spaces_head s) as [Hnil | (d & rest' & Hd & Hsp)].
    + rewrite Hnil in Hs. discriminate.
    + rewrite Hd in Hs. simpl in Hs. now inversion Hs; subst.
  - unfold trim. intros c front E.
    destruct (drop_spaces_head (rev (drop_spaces s)))
      as [Hnil | (d & rest' & Hd & Hsp)].
    + rewrite Hnil in E. simpl in E. now destruct front.
    + rewrite Hd in E. simpl in E.
      apply app_inj_tail in E as [_ ->]. exact Hsp.
Qed.

Lemma trim_fixed (t : jstring) : trimmed t -> trim t = t.
Proof.
  intros [Hhead Hlast]. unfold trim.
  rewrite (drop_spaces_fixed t Hhead).
  rewrite drop_spaces_fixed; [apply rev_involutive |].
  intros c rest E. apply (Hlast c (rev rest)).
  rewrite <- (rev_involutive t), E. reflexivity.
Qed.

End Normalisation.

(** Extract answers ok only from a response with a status in [[200,400)]
    whose body the HTML library accepted and whose normalised text has at
    least [TEXT_MIN_CHARS] code units. *)
Lemma fetchText_ok_inv (env : Env) (url : option jstring) :
  t_text_ok (fetchText env url) = true ->
  exists resp body,
    axios_text env url = Ok resp
    /\ (200 <= status resp < 400)%Z
    /\ cheerio_body_text env (data resp) = Ok body
    /\ TEXT_MIN_CHARS <= List.length (trim (collapse_spaces body))
    /\ fetchText env url
       = mkText (Some (slice0 TEXT_MAX_CHARS (trim (collapse_spaces body))))
                true.
Proof.
  unfold fetchText, fetchText_try, try_catch, exn_bind.
  destruct (axios_text env url) as [resp |] eqn:E; [| discriminate].
  destruct (success_status (status resp)) eqn:Hst; [| discriminate].
  destruct (cheerio_body_text env (data resp)) as [body |] eqn:Eb;
    [| discriminate].
  destruct (TEXT_MIN_CHARS <=? List.length (trim (collapse_spaces body)))
    eqn:Hmin; [| discriminate].
  intros _. exists resp, body.
  apply success_status_iff in Hst. apply Nat.leb_le in Hmin.
  split; [reflexivity |]. split; [exact Hst |]. split; [exact Eb |].
  split; [exact Hmin | reflexivity].
Qed.

Lemma text_max_positive : exists m, TEXT_MAX_CHARS = S m.
Proof. exists 9999. reflexivity. Qed.

Lemma text_min_positive : exists m, TEXT_MIN_CHARS = S m.
Proof. exists 199. reflexivity. Qed.

(** X1.  Extract answers ok only when the GET returned a response with a
    status in [[200,400)], the HTML library produced the body text, and
    that text, with white space collapsed and trimmed, has at least
    [TEXT_MIN_CHARS] code units; the stored text is then the first
    [TEXT_MAX_CHARS] code units of the normalised text.  A thrown request,
    another status, a body the library rejects, or a shorter text never
    gives ok. *)
Theorem fetchText_ok_only_from_accepted_page
        (env : Env) (url : option jstring) :
  t_text_ok (fetchText env url) = true ->
  exists resp body,
    axios_text env url = Ok resp
    /\ (200 <= status resp < 400)%Z
    /\ cheerio_body_text env (data resp) = Ok body
    /\ TEXT_MIN_CHARS <= List.length (trim (collapse_spaces body))
    /\ t_homepage_text (fetchText env url)
       = Some (slice0 TEXT_MAX_CHARS (trim (collapse_spaces body))).
Proof.
  intros Hok.
  destruct (fetchText_ok_inv env url Hok)
    as (resp & body & E & Hst & Hb & Hmin & ->).
  exists resp, body. auto.
Qed.

Lemma fetchText_ok_only_from_accepted_page_witness :
  exists resp body,
    axios_text Sample.env (Some (lit "https://www.a.test/home")) = Ok resp
    /\ (200 <= status resp < 400)%Z
    /\ cheerio_body_text Sample.env (data resp) = Ok body
    /\ TEXT_MIN_CHARS <= List.length (trim (collapse_spaces body))
    /\ t_homepage_text
         (fetchText Sample.env (Some (lit "https://www.a.test/home")))
       = Some (slice0 TEXT_MAX_CHARS (trim (collapse_spaces body))).
Proof.
  apply (fetchText_ok_only_from_accepted_page Sample.env
           (Some (lit "https://www.a.test/home"))).
  vm_compute. reflexivity.
Defined.

(** X2.  The text Extract stores is in normal form: its only white-space
    code units are single U+0020 spaces (no tab, line break or other
    Unicode space, and never two in a row), and it does not begin with
    white space; collapsing white space again leaves it unchanged. *)
Theorem fetchText_text_is_single_spaced
        (env : Env) (url : option jstring) (text : jstring) :
  t_homepage_text (fetchText env url) = Some text ->
  (forall c, In c text -> is_space c = true -> c = 32%N)
  /\ (forall front x y back,
        text = front ++ x :: y :: back ->
        is_space x = true -> is_space y = false)
  /\ (exists c rest, text = c :: rest /\ is_space c = false)
  /\ collapse_spaces text = text.
Proof.
  intros Hsome.
  assert (Hok : t_text_ok (fetchText env url) = true).
  { destruct (fetchText_cases env url) as [E | (t & _ & E)];
      rewrite E in *; [discriminate | reflexivity]. }
  destruct (fetchText_ok_inv env url Hok)
    as (resp & body & _ & _ & _ & Hmin & E).
  rewrite E in Hsome. cbn [t_homepage_text] in Hsome.
  assert (Htext : text = slice0 TEXT_MAX_CHARS (trim (collapse_spaces body)))
    by congruence.
  clear Hsome E Hok. subst text.
  pose proof (trim_trimmed (collapse_spaces body)) as [Hhead _].
  assert (Hnorm : well_spaced (trim (collapse_spaces body)) = true).
  { destruct (trim_infix (collapse_spaces body)) as (front & back & Ein & _).
    pose proof (collapse_spaces_well_spaced body) as Hws.
    rewrite Ein in Hws. apply well_spaced_app_r in Hws.
    now apply well_spaced_app_l in Hws. }
  remember (trim (collapse_spaces body)) as norm eqn:En. clear En.
  assert (Hws : well_spaced (slice0 TEXT_MAX_CHARS norm) = true).
  { apply (well_spaced_app_l _ (skipn TEXT_MAX_CHARS norm)).
    unfold slice0. now rewrite firstn_skipn. }
  split; [| split; [| split]].
  - intros c. now apply well_spaced_only_32.
  - intros front x y back Esplit. apply (well_spaced_spaces front back).
    now rewrite <- Esplit.
  - destruct text_max_positive as [m Hm]. destruct text_min_positive as [k Hk].
    destruct norm as [| c rest]; [simpl in Hmin; lia |].
    exists c, (firstn m rest). unfold slice0. rewrite Hm.
    split; [reflexivity |]. now apply (Hhead c rest).
  - now apply collapse_spaces_fixed.
Qed.

Lemma fetchText_text_is_single_spaced_witness :
  exists text,
    t_homepage_text
      (fetchText Sample.env (Some (lit "https://www.a.test/home"))) = Some text
    /\ (forall c, In c text -> is_space c = true -> c = 32%N)
    /\ collapse_spaces text = text.
Proof.
  destruct (t_homepage_text
              (fetchText Sample.env (Some (lit "https://www.a.test/home"))))
    as [text |] eqn:E; [| vm_compute in E; discriminate].
  exists text. split; [reflexivity |].
  destruct (fetchText_text_is_single_spaced Sample.env
              (Some (lit "https://www.a.test/home")) text E)
    as (H32 & _ & _ & Hfix).
  split; assumption.
Defined.

(** X3.  Normalising is idempotent: collapsing white space and trimming a
    text that was already collapsed and trimmed gives the same text. *)
Theorem normalise_idempotent (s : jstring) :
  trim (collapse_spaces (trim (collapse_spaces s)))
  = trim (collapse_spaces s).
Proof.
  assert (Hws : well_spaced (trim (collapse_spaces s)) = true).
  { destruct (trim_infix (collapse_spaces s)) as (front & back & Ein & _).
    pose proof (collapse_spaces_well_spaced s) as H.
    rewrite Ein in H. apply well_spaced_app_r in H.
    now apply well_spaced_app_l in H. }
  rewrite (collapse_spaces_fixed _ Hws).
  apply trim_fixed, trim_trimmed.
Qed.

(** X4.  A text that fits is stored whole, and is then trimmed at both
    ends; a longer text is not rejected but cut to exactly
    [TEXT_MAX_CHARS] code units, the decision to accept having been taken
    on the length before the cut. *)
Theorem fetchText_truncates (env : Env) (url : option jstring)
        (resp : Response) (body : jstring) :
  axios_text env url = Ok resp ->
  (200 <= status resp < 400)%Z ->
  cheerio_body_text env (data resp) = Ok body ->
  TEXT_MIN_CHARS <= List.length (trim (collapse_spaces body)) ->
  exists text,
    fetchText env url = mkText (Some text) true
    /\ (List.length (trim (collapse_spaces body)) <= TEXT_MAX_CHARS ->
        text = trim (collapse_spaces body) /\ trimmed text)
    /\ (TEXT_MAX_CHARS < List.length (trim (collapse_spaces body)) ->
        List.length text = TEXT_MAX_CHARS
        /\ exists cut, trim (collapse_spaces body) = text ++ cut /\ cut <> []).
Proof.
  intros E Hst Hb Hmin.
  exists (slice0 TEXT_MAX_CHARS (trim (collapse_spaces body))).
  split; [| split].
  - unfold fetchText, fetchText_try, try_catch, exn_bind.
    rewrite E. apply success_status_iff in Hst. rewrite Hst, Hb.
    apply Nat.leb_le in Hmin. now rewrite Hmin.
  - intros Hfit. unfold slice0. rewrite firstn_all2 by exact Hfit.
    split; [reflexivity | apply trim_trimmed].
  - intros Hlong. rewrite slice0_length. split; [lia |].
    exists (skipn TEXT_MAX_CHARS (trim (collapse_spaces body))).
    unfold slice0. rewrite firstn_skipn. split; [reflexivity |].
    intros Hnil. apply (f_equal (@List.length code_unit)) in Hnil.
    rewrite length_skipn in Hnil. simpl in Hnil. lia.
Qed.

Lemma fetchText_truncates_witness :
  exists text,
    fetchText Sample.env (Some (lit "https://www.a.test/home"))
    = mkText (Some text) true
    /\ (List.length (trim (collapse_spaces Sample.page)) <= TEXT_MAX_CHARS ->
        text = trim (collapse_spaces Sample.page) /\ trimmed text)
    /\ (TEXT_MAX_CHARS < List.length (trim (collapse_spaces Sample.page)) ->
        List.length text = TEXT_MAX_CHARS
        /\ exists cut,
             trim (collapse_spaces Sample.page) = text ++ cut /\ cut <> []).
Proof.
  apply (fetchText_truncates Sample.env (Some (lit "https://www.a.test/home"))
           (mkResponse 200 (lit "https://www.a.test/home") Sample.page)
           Sample.page).
  - reflexivity.
  - simpl. lia.
  - reflexivity.
  - apply Nat.leb_le. vm_compute. reflexivity.
Defined.

(* ================================================================== *)
(** * More on Probe and Resolve *)
(* ================================================================== *)

Lemma httpCheck_loop_shape (env : Env) (urls : list jstring) :
  (h_http_ok (fst (httpCheck_loop env urls)) = false
   /\ fst (httpCheck_loop env urls) = http_not_ok)
  \/ (exists tried cand resp,
        snd (httpCheck_loop env urls) = tried ++ [cand]
        /\ axios_probe env cand = Ok resp
        /\ (200 <= status resp < 400)%Z
        /\ isIpHost env (responseUrl resp) = false
        /\ fst (httpCheck_loop env urls)
           = mkHttp true (Some (responseUrl resp)) (Some (status resp))
                    (startsWith (lit "https://") (responseUrl resp))).
Proof.
  induction urls as [| url rest IH]; simpl; [now left |].
  unfold httpCheck_try.
  destruct (axios_probe env url) as [resp |] eqn:E; simpl.
  - destruct (success_status (status resp)) eqn:Hst; simpl.
    + destruct (isIpHost env (responseUrl resp)) eqn:Hip; simpl;
        [now left |].
      right. exists [], url, resp. apply success_status_iff in Hst.
      repeat split; auto; lia.
    + destruct (httpCheck_loop env rest) as [r requested]. simpl in *.
      destruct IH as [IH | (tried & cand & resp' & -> & IH)]; [now left |].
      right. exists (url :: tried), cand, resp'. auto.
  - destruct (httpCheck_loop env rest) as [r requested]. simpl in *.
    destruct IH as [IH | (tried & cand & resp' & -> & IH)]; [now left |].
    right. exists (url :: tried), cand, resp'. auto.
Qed.

(** X5.  The answer of Probe is all-or-nothing.  When it is ok, the final
    URL and the status code are present, the status lies in [[200,400)],
    both come from the response to the last candidate requested, and
    [used_https] tells whether that final URL (not the candidate) begins
    with [https://].  When it is not ok, the final URL and the status code
    are absent and [used_https] is false. *)
Theorem httpCheck_answer_all_or_nothing (env : Env) (domain : jstring) :
  (h_http_ok (httpCheck env domain) = true ->
   exists tried cand resp,
     httpCheck_requests env domain = tried ++ [cand]
     /\ axios_probe env cand = Ok resp
     /\ (200 <= status resp < 400)%Z
     /\ h_final_url (httpCheck env domain) = Some (responseUrl resp)
     /\ h_status_code (httpCheck env domain) = Some (status resp)
     /\ h_used_https (httpCheck env domain)
        = startsWith (lit "https://") (responseUrl resp))
  /\ (h_http_ok (httpCheck env domain) = false ->
      h_final_url (httpCheck env domain) = None
      /\ h_status_code (httpCheck env domain) = None
      /\ h_used_https (httpCheck env domain) = false).
Proof.
  unfold httpCheck, httpCheck_requests, httpCheck_run.
  destruct (httpCheck_loop_shape env (candidate_urls domain))
    as [[Hno ->] | (tried & cand & resp & -> & E & Hst & _ & ->)]; simpl.
  - split; [discriminate | auto].
  - split; [| discriminate]. intros _. exists tried, cand, resp.
    repeat split; solve [assumption | reflexivity | lia].
Qed.

(** [v6.test] is accepted at its secure candidate but ends at an insecure
    URL: [used_https] is false although the request went out over
    [https]. *)
Lemma httpCheck_answer_all_or_nothing_witness :
  (exists tried cand resp,
     httpCheck_requests Sample.env (lit "v6.test") = tried ++ [cand]
     /\ axios_probe Sample.env cand = Ok resp
     /\ (200 <= status resp < 400)%Z
     /\ h_final_url (httpCheck Sample.env (lit "v6.test"))
        = Some (responseUrl resp)
     /\ h_status_code (httpCheck Sample.env (lit "v6.test"))
        = Some (status resp)
     /\ h_used_https (httpCheck Sample.env (lit "v6.test"))
        = startsWith (lit "https://") (responseUrl resp))
  /\ (h_final_url (httpCheck Sample.env (lit "down.test")) = None
      /\ h_status_code (httpCheck Sample.env (lit "down.test")) = None
      /\ h_used_https (httpCheck Sample.env (lit "down.test")) = false).
Proof.
  split.
  - apply (proj1 (httpCheck_answer_all_or_nothing Sample.env (lit "v6.test"))).
    reflexivity.
  - apply (proj2 (httpCheck_answer_all_or_nothing Sample.env (lit "down.test"))).
    reflexivity.
Defined.

Lemma httpCheck_loop_agree (env env' : Env) (urls : list jstring) :
  (forall u, In u (snd (httpCheck_loop env urls)) ->
             axios_probe env' u = axios_probe env u) ->
  (forall u, url_hostname env' u = url_hostname env u) ->
  httpCheck_loop env' urls = httpCheck_loop env urls.
Proof.
  intros Hprobe Hhost.
  assert (Hip : forall u, isIpHost env' u = isIpHost env u).
  { intros u. unfold isIpHost. now rewrite Hhost. }
  induction urls as [| url rest IH]; [reflexivity |].
  simpl in *.
  assert (Htry : httpCheck_try env' url = httpCheck_try env url).
  { unfold httpCheck_try. rewrite Hprobe.
    - destruct (axios_probe env url) as [resp |]; simpl; [| reflexivity].
      now rewrite Hip.
    - destruct (try_catch (httpCheck_try env url) None);
        [| destruct (httpCheck_loop env rest)]; now left. }
  rewrite Htry.
  destruct (try_catch (httpCheck_try env url) None); [reflexivity |].
  rewrite IH; [reflexivity |].
  intros u Hu. apply Hprobe.
  destruct (httpCheck_loop env rest). now right.
Qed.

Lemma httpCheck_loop_first_request (env : Env) (url : jstring)
      (rest : list jstring) :
  exists more, snd (httpCheck_loop env (url :: rest)) = url :: more.
Proof.
  simpl. destruct (try_catch (httpCheck_try env url) None).
  - now exists [].
  - destruct (httpCheck_loop env rest) as [r requested]. now exists requested.
Qed.

(** X6.  Probe makes between one and four requests, the first of them to
    [https://domain/], and its answer depends on nothing but the responses
    to the requests it made (and on the URL parser): an environment that
    answers those requests alike gives the same answer and the same
    requests, whatever it would have answered for the other candidates. *)
Theorem httpCheck_depends_on_requests_made
        (env env' : Env) (domain : jstring) :
  (exists more,
      httpCheck_requests env domain
      = (lit "https://" ++ domain ++ lit "/") :: more
      /\ List.length more <= 3)
  /\ ((forall u, In u (httpCheck_requests env domain) ->
                 axios_probe env' u = axios_probe env u) ->
      (forall u, url_hostname env' u = url_hostname env u) ->
      httpCheck env' domain = httpCheck env domain
      /\ httpCheck_requests env' domain = httpCheck_requests env domain).
Proof.
  split.
  - unfold httpCheck_requests, httpCheck_run.
    destruct (httpCheck_loop_requests_prefix env (candidate_urls domain))
      as [later Hpre].
    destruct (httpCheck_loop_first_request env
                (lit "https://" ++ domain ++ lit "/")
                (tl (candidate_urls domain))) as [more Hmore].
    change ((lit "https://" ++ domain ++ lit "/")
              :: tl (candidate_urls domain))
      with (candidate_urls domain) in Hmore.
    exists more. split; [exact Hmore |].
    rewrite Hmore in Hpre.
    apply (f_equal (@List.length jstring)) in Hpre.
    rewrite length_app in Hpre. simpl in Hpre.
    unfold jstring in *. lia.
  - intros Hprobe Hhost.
    unfold httpCheck, httpCheck_requests, httpCheck_run in *.
    now rewrite (httpCheck_loop_agree env env' _ Hprobe Hhost).
Qed.

(** An environment in which the insecure candidates of [ip.test], never
    requested after the bare-IP rejection, are refused. *)
Lemma httpCheck_depends_on_requests_made_witness :
  let env' :=
    mkEnv (resolve4 Sample.env)
          (fun u => if startsWith (lit "http://") u then Throw
                    else axios_probe Sample.env u)
          (axios_text Sample.env) (url_hostname Sample.env)
          (cheerio_body_text Sample.env) in
  httpCheck env' (lit "ip.test") = httpCheck Sample.env (lit "ip.test")
  /\ httpCheck_requests env' (lit "ip.test")
     = httpCheck_requests Sample.env (lit "ip.test").
Proof.
  intros env'.
  apply (proj2 (httpCheck_depends_on_requests_made Sample.env env'
                  (lit "ip.test"))).
  - intros u Hu. vm_compute in Hu.
    destruct Hu as [<- | [<- | []]]; reflexivity.
  - reflexivity.
Defined.

(* ------------------------------------------------------------------ *)
(** ** The joined address list *)

Lemma no_semicolon_cons (c : code_unit) (s : jstring) :
  no_semicolon (c :: s) -> c <> 59%N /\ no_semicolon s.
Proof.
  unfold no_semicolon. simpl. intros H. split.
  - intros ->. apply H. now left.
  - intros Hin. apply H. now right.
Qed.

(** Two texts without semicolon, each followed by nothing or by a
    semicolon and more, are equal when the wholes are. *)
Lemma semicolon_split (p q x y : jstring) :
  no_semicolon p -> no_semicolon q ->
  (x = [] \/ exists x', x = 59%N :: x') ->
  (y = [] \/ exists y', y = 59%N :: y') ->
  p ++ x = q ++ y -> p = q /\ x = y.
Proof.
  revert q. induction p as [| a p IH]; intros [| b q] Hp Hq Hx Hy E;
    simpl in E.
  - auto.
  - apply no_semicolon_cons in Hq as [Hb _].
    destruct Hx as [-> | (x' & ->)]; [discriminate |].
    inversion E; subst. congruence.
  - apply no_semicolon_cons in Hp as [Ha _].
    destruct Hy as [-> | (y' & ->)]; [discriminate |].
    inversion E; subst. congruence.
  - apply no_semicolon_cons in Hp as [_ Hp].
    apply no_semicolon_cons in Hq as [_ Hq].
    inversion E; subst.
    destruct (IH q Hp Hq Hx Hy) as [-> ->]; auto.
Qed.

Lemma join_cons (p : jstring) (rest : list jstring) :
  join (lit ";") (p :: rest)
  = p ++ match rest with
         | [] => []
         | _ :: _ => 59%N :: join (lit ";") rest
         end.
Proof.
  destruct rest as [| q rest]; simpl; [now rewrite app_nil_r | reflexivity].
Qed.

Lemma join_semicolon_injective (a b : list jstring) :
  a <> [] -> b <> [] ->
  Forall no_semicolon a -> Forall no_semicolon b ->
  join (lit ";") a = join (lit ";") b -> a = b.
Proof.
  revert b. induction a as [| p a IH]; intros [| q b] Ha Hb Hsa Hsb E;
    try congruence.
  inversion Hsa as [| ? ? Hp Hsa']; inversion Hsb as [| ? ? Hq Hsb']; subst.
  rewrite !join_cons in E.
  apply semicolon_split in E as [-> E]; auto.
  - destruct a as [| p' a]; destruct b as [| q' b]; try discriminate;
      [reflexivity |].
    inversion E as [E']. f_equal. apply IH; auto; discriminate.
  - destruct a; [now left | right; eauto].
  - destruct b; [now left | right; eauto].
Qed.

(** X7.  Resolve reports [has_dns] exactly when the resolver called back
    with addresses, and then [dns_ips] is present; it is absent after a
    resolver error.  The joined text determines the address list: two
    non-empty lists of addresses free of semicolons that give the same
    [dns_ips] are the same list.  (An empty list and a list holding one
    empty text both give the empty text.) *)
Theorem dnsLookup_ips_determine_addresses
        (env env' : Env) (domain domain' : jstring) (a b : list jstring) :
  (resolve4 env domain = R4Error -> dnsLookup env domain = Ok (mkDns false None))
  /\ (resolve4 env domain = R4Addresses a ->
      exists ips, dnsLookup env domain = Ok (mkDns true (Some ips)))
  /\ (resolve4 env domain = R4Addresses a ->
      resolve4 env' domain' = R4Addresses b ->
      a <> [] -> b <> [] ->
      Forall no_semicolon a -> Forall no_semicolon b ->
      dnsLookup env domain = dnsLookup env' domain' ->
      a = b)
  /\ join (lit ";") [] = join (lit ";") [[]].
Proof.
  unfold dnsLookup. split; [| split; [| split]].
  - now intros ->.
  - intros ->. eauto.
  - intros -> -> Ha Hb Hsa Hsb E. inversion E as [Ej].
    now apply join_semicolon_injective.
  - reflexivity.
Qed.

Lemma dnsLookup_ips_determine_addresses_witness :
  (exists ips,
      dnsLookup Sample.env (lit "a.test") = Ok (mkDns true (Some ips)))
  /\ dnsLookup Sample.env (lit "nx.test") = Ok (mkDns false None).
Proof.
  pose proof (dnsLookup_ips_determine_addresses Sample.env Sample.env
                (lit "a.test") (lit "a.test")
                [lit "192.0.2.1"; lit "192.0.2.2"]
                [lit "192.0.2.1"; lit "192.0.2.2"]) as (_ & Hok & _).
  pose proof (dnsLookup_ips_determine_addresses Sample.env Sample.env
                (lit "nx.test") (lit "nx.test") [] []) as (Herr & _).
  split; [apply Hok | apply Herr]; reflexivity.
Defined.

(* ================================================================== *)
(** * More on the controller loop *)
(* ================================================================== *)

Lemma dnsLookup_result (env : Env) (d : jstring) (b : bool)
      (ips : option jstring) :
  dnsLookup env d = Ok (mkDns b ips) ->
  (b = true /\ exists t, ips = Some t) \/ (b = false /\ ips = None).
Proof.
  unfold dnsLookup. destruct (resolve4 env d); intros E; inversion E; eauto.
Qed.

Lemma httpCheck_result (env : Env) (d : jstring) (b : bool)
      (fu : option jstring) (sc : option Z) (uh : bool) :
  httpCheck env d = mkHttp b fu sc uh ->
  (b = true /\ exists u st,
      fu = Some u /\ sc = Some st
      /\ uh = startsWith (lit "https://") u /\ (200 <= st < 400)%Z)
  \/ (b = false /\ fu = None /\ sc = None /\ uh = false).
Proof.
  unfold httpCheck, httpCheck_run.
  destruct (httpCheck_loop_shape env (candidate_urls d))
    as [[_ ->] | (tried & cand & resp & _ & _ & Hst & _ & ->)];
    intros E; inversion E; subst.
  - right. auto.
  - left. split; [reflexivity |].
    exists (responseUrl resp), (status resp). auto.
Qed.

Lemma fetchText_result (env : Env) (url : option jstring)
      (ht : option jstring) (b : bool) :
  fetchText env url = mkText ht b ->
  (b = true /\ exists t,
      ht = Some t /\ TEXT_MIN_CHARS <= List.length t <= TEXT_MAX_CHARS)
  \/ (b = false /\ ht = None).
Proof.
  destruct (fetchText_cases env url) as [-> | (text & Hmin & ->)];
    unfold text_not_ok; intros E.
  - right. split; congruence.
  - left. split; [congruence |].
    exists (slice0 TEXT_MAX_CHARS text). split; [congruence |].
    rewrite slice0_length. pose proof text_bounds_ordered. lia.
Qed.

(** Turns the equations a case analysis on the script's stage calls leaves
    behind into facts about the fields. *)
Ltac script_facts :=
  repeat match goal with
         | H : call_dns (script_stages _) _ = Throw |- _ => clear H
         | H : call_http (script_stages _) _ = Throw |- _ => discriminate H
         | H : call_text (script_stages _) _ = Throw |- _ => discriminate H
         | H : call_dns (script_stages _) _ = Ok _ |- _ =>
             apply dnsLookup_result in H;
             destruct H as [[? [? ?]] | [? ?]]; try discriminate; subst
         | H : call_http (script_stages _) _ = Ok _ |- _ =>
             injection H as H; apply httpCheck_result in H;
             destruct H as [[? (? & ? & ? & ? & ? & ?)] | (? & ? & ? & ?)];
             try discriminate; subst
         | H : call_text (script_stages _) _ = Ok _ |- _ =>
             injection H as H; apply fetchText_result in H;
             destruct H as [[? (? & ? & ?)] | [? ?]];
             try discriminate; subst
         end.

Lemma iteration_consistent (env : Env) (i n : nat) (d : jstring)
      (s : MainState) :
  exists r,
    results (snd (iteration (script_stages env) i n d s)) = results s ++ [r]
    /\ domain r = d /\ record_consistent r.
Proof.
  run_pass (script_stages env) i n d; script_facts;
    eexists; (split; [reflexivity |]); (split; [reflexivity |]);
    unfold record_consistent;
    cbn [has_dns dns_ips http_ok final_url status_code used_https text_ok
         homepage_text];
    repeat split; intros; try congruence; try discriminate;
    match goal with
    | H : Some _ = Some _ |- _ => inversion H; subst; lia
    end.
Qed.

Lemma for_rows_consistent (w : nat -> Env) (n : nat) (rows : list jstring) :
  forall i s,
    exists rs,
      results (snd (for_rows (fun j => script_stages (w j)) n i rows s))
      = results s ++ rs
      /\ map domain rs = rows
      /\ Forall record_consistent rs.
Proof.
  induction rows as [| d rest IH]; intros i s.
  - exists []. simpl. now rewrite app_nil_r.
  - rewrite for_rows_step.
    destruct (iteration_consistent (w i) i n d s) as (r & Hr & Hd & Hc).
    destruct (IH (S i) (snd (iteration (script_stages (w i)) i n d s)))
      as (rs & Hrs & Hm & Hcs).
    exists (r :: rs). rewrite Hrs, Hr, <- app_assoc. simpl.
    repeat split; [now rewrite Hd, Hm | now constructor].
Qed.

Lemma load_rows_nonempty (input : list InputRow) (d : jstring) :
  In d (load_rows input) -> d <> [].
Proof.
  induction input as [| rec rest IH]; simpl; [contradiction |].
  destruct (row_domain rec) as [[| c t] |]; auto.
  intros [<- | Hin]; [discriminate | auto].
Qed.

(** X8.  Every record [main] hands to the writer has a non-empty domain
    and fields that agree with its flags: [dns_ips], [final_url],
    [status_code] and [homepage_text] are present exactly when the flag
    that owns them is set (never a default-looking value beside a false
    flag), [text_ok] needs [http_ok], which needs [has_dns], a present
    status code lies in [[200,400)], [used_https] is set exactly for a
    final URL beginning with [https://], and a present homepage text has
    between 200 and 10000 code units. *)
Theorem main_records_consistent (w : nat -> Env) (input : list InputRow)
        (r : DomainRecord) :
  In r (written (main w input)) ->
  domain r <> [] /\ record_consistent r.
Proof.
  unfold written, main, main_with.
  destruct (for_rows_consistent w (List.length (load_rows input))
              (load_rows input) 0 initial_state) as (rs & -> & Hm & Hc).
  simpl. intros Hin. split.
  - apply (load_rows_nonempty input). rewrite <- Hm. now apply in_map.
  - rewrite Forall_forall in Hc. now apply Hc.
Qed.

Lemma main_records_consistent_witness :
  exists r,
    nth_error (written (main Sample.world Sample.input)) 2 = Some r
    /\ domain r <> [] /\ record_consistent r.
Proof.
  destruct (nth_error (written (main Sample.world Sample.input)) 2)
    as [r |] eqn:E; [| vm_compute in E; discriminate].
  exists r. split; [reflexivity |].
  apply (main_records_consistent Sample.world Sample.input r).
  apply nth_error_In with (n := 2). exact E.
Defined.

(* ------------------------------------------------------------------ *)
(** ** The counters and the stage markers *)

Lemma iteration_tallies (s0 : Stages) (i n : nat) (d : jstring)
      (s : MainState) :
  tallies s -> tallies (snd (iteration s0 i n d s)).
Proof.
  unfold tallies, count_stage. intros (Hf & Hd & Hh & Ht & Hle1 & Hle2).
  run_pass s0 i n d; rewrite !filter_app, !length_app; simpl;
    repeat split; lia.
Qed.

(** X9.  Whatever the stage calls answer or throw, after any number of
    passes the four terminal counters count the records by stage marker:
    [dnsErrors] the [fail] records, [httpErrors] the [dns] records,
    [textErrors] the [http] records and [textCount] the [text] records.
    So every processed domain is counted in exactly one of them, and
    [textCount <= httpCount <= dnsCount]. *)
Theorem counters_tally_stage_markers (st : nat -> Stages)
        (input : list InputRow) (k : nat) :
  let s := after_passes st input k in
  let c := counters s in
  dnsErrors c = count_stage StFail (results s)
  /\ httpErrors c = count_stage StDns (results s)
  /\ textErrors c = count_stage StHttp (results s)
  /\ textCount c = count_stage StText (results s)
  /\ dnsErrors c + httpErrors c + textErrors c + textCount c
     = List.length (results s)
  /\ textCount c <= httpCount c <= dnsCount c.
Proof.
  intros s c.
  assert (Ht : tallies s /\
               dnsErrors c + httpErrors c + textErrors c + textCount c
               = List.length (results s)).
  { unfold s, c, after_passes.
    apply (for_rows_invariant_init st (List.length (load_rows input))
             (fun _ s =>
                tallies s /\
                dnsErrors (counters s) + httpErrors (counters s)
                + textErrors (counters s) + textCount (counters s)
                = List.length (results s))).
    - intros done d s1 [Htal Hsum]. split; [now apply iteration_tallies |].
      clear Htal. revert Hsum.
      run_pass (st (List.length done)) (List.length done)
               (List.length (load_rows input)) d;
        rewrite length_app; simpl; lia.
    - unfold tallies, count_stage. simpl. repeat split; lia. }
  destruct Ht as [(Hf & Hd & Hh & Htx & Hle1 & Hle2) Hsum].
  fold c in Hf, Hd, Hh, Htx, Hle1, Hle2.
  repeat split; assumption.
Qed.

(* ------------------------------------------------------------------ *)
(** ** Which stage calls a pass makes *)

Lemma calls_of_pass_app (i : nat) (a b : list Event) :
  calls_of_pass i (a ++ b) = calls_of_pass i a ++ calls_of_pass i b.
Proof.
  induction a as [| [j name c | m c] a IH]; simpl; auto.
  destruct (j =? i); simpl; now rewrite IH.
Qed.

(** The stage calls of one pass of [main] are those up to the stage at
    which its record stopped; no other pass appears in them. *)
Lemma iteration_calls (env : Env) (i n : nat) (d : jstring) (s : MainState) :
  exists r evs,
    results (snd (iteration (script_stages env) i n d s)) = results s ++ [r]
    /\ trace (snd (iteration (script_stages env) i n d s)) = trace s ++ evs
    /\ calls_of_pass i evs = calls_for (stage r)
    /\ forall j, j <> i -> calls_of_pass j evs = [].
Proof.
  run_pass (script_stages env) i n d; try discriminate;
    rewrite <- ?app_assoc; simpl;
    do 2 eexists; (split; [reflexivity |]); (split; [reflexivity |]);
    simpl; rewrite ?Nat.eqb_refl;
    (split; [reflexivity |]);
    intros j Hj; apply not_eq_sym in Hj; apply Nat.eqb_neq in Hj;
    rewrite ?Hj; reflexivity.
Qed.

Lemma main_calls_invariant (w : nat -> Env) (n : nat) (rows : list jstring) :
  let s := snd (for_rows (fun j => script_stages (w j)) n 0 rows
                         initial_state) in
  List.length (results s) = List.length rows
  /\ (forall i r, nth_error (results s) i = Some r ->
                  calls_of_pass i (trace s) = calls_for (stage r))
  /\ (forall j, List.length rows <= j -> calls_of_pass j (trace s) = []).
Proof.
  apply (for_rows_invariant_init (fun j => script_stages (w j)) n
           (fun done s =>
              List.length (results s) = List.length done
              /\ (forall i r, nth_error (results s) i = Some r ->
                              calls_of_pass i (trace s) = calls_for (stage r))
              /\ (forall j, List.length done <= j ->
                            calls_of_pass j (trace s) = []))).
  - intros done d s (Hlen & Hold & Hnone).
    destruct (iteration_calls (w (List.length done)) (List.length done) n d s)
      as (r & evs & -> & -> & Hnew & Hother).
    rewrite !length_app. simpl. split; [lia |]. split.
    + intros i r' Hnth. rewrite calls_of_pass_app.
      destruct (Nat.lt_ge_cases i (List.length (results s))) as [Hlt | Hge].
      * rewrite nth_error_app1 in Hnth by exact Hlt.
        rewrite (Hold i r' Hnth), Hother by lia. apply app_nil_r.
      * rewrite nth_error_app2 in Hnth by exact Hge.
        destruct (i - List.length (results s)) as [| k] eqn:Ek;
          [| destruct k; discriminate].
        simpl in Hnth. inversion Hnth; subst r'.
        assert (i = List.length done) by lia. subst i.
        now rewrite Hnone, Hnew by lia.
    + intros j Hj. rewrite calls_of_pass_app, Hnone, Hother by lia.
      reflexivity.
  - simpl. repeat split; auto. intros [| i] r; discriminate.
Qed.

(** X10.  [main] short-circuits: for every row, the stage calls made in
    its pass are exactly those up to the stage at which its record stopped
    - Resolve alone for a [fail] record, Resolve and Probe for a [dns]
    record, all three for an [http] or [text] record - each made once and
    in that order; Probe is never called after a failed Resolve, nor
    Extract after a failed Probe. *)
Theorem main_calls_stop_at_first_failure
        (w : nat -> Env) (input : list InputRow) (i : nat) (r : DomainRecord) :
  nth_error (written (main w input)) i = Some r ->
  calls_of_pass i (trace (snd (main w input))) = calls_for (stage r)
  /\ (has_dns r = false ->
      calls_of_pass i (trace (snd (main w input))) = [Resolve])
  /\ (has_dns r = true -> http_ok r = false ->
      calls_of_pass i (trace (snd (main w input))) = [Resolve; Probe]).
Proof.
  intros Hnth.
  pose proof (main_calls_invariant w (List.length (load_rows input))
                (load_rows input)) as (_ & Hcalls & _).
  assert (Hc : calls_of_pass i (trace (snd (main w input)))
               = calls_for (stage r)) by (apply Hcalls; exact Hnth).
  assert (Hflags : stage_flags r).
  { unfold written, main, main_with in Hnth.
    destruct (for_rows_results (fun j => script_stages (w j))
                (List.length (load_rows input)) (load_rows input) 0
                initial_state) as (rs & E & _ & Hf).
    rewrite E in Hnth. simpl in Hnth.
    rewrite Forall_forall in Hf. apply Hf. eapply nth_error_In, Hnth. }
  rewrite Hc. split; [reflexivity |].
  unfold stage_flags in Hflags.
  split; intros; destruct (stage r); simpl in *;
    try reflexivity; exfalso; intuition congruence.
Qed.

Lemma main_calls_stop_at_first_failure_witness :
  calls_of_pass 3 (trace (snd (main Sample.world Sample.input))) = [Resolve]
  /\ calls_of_pass 2 (trace (snd (main Sample.world Sample.input)))
     = [Resolve; Probe].
Proof.
  destruct (nth_error (written (main Sample.world Sample.input)) 3)
    as [r3 |] eqn:E3; [| vm_compute in E3; discriminate].
  destruct (nth_error (written (main Sample.world Sample.input)) 2)
    as [r2 |] eqn:E2; [| vm_compute in E2; discriminate].
  split.
  - apply (main_calls_stop_at_first_failure Sample.world Sample.input 3 r3 E3).
    vm_compute in E3. now inversion E3.
  - apply (main_calls_stop_at_first_failure Sample.world Sample.input 2 r2 E2);
      vm_compute in E2; now inversion E2.
Defined.

(* ------------------------------------------------------------------ *)
(** ** When progress is reported *)

Lemma report_due_iff (i n : nat) :
  (((i + 1) mod LOG_INTERVAL =? 0) || (i + 1 =? n)) = true <-> report_due i n.
Proof.
  unfold report_due. rewrite orb_true_iff, !Nat.eqb_eq. tauto.
Qed.

Ltac run_pass_due st i n domain Hdue :=
  unfold iteration, progress, try_catch_m, bind, call, update, push,
    continue, report, ret, log, fail_record;
  pass_cases st domain; cbn [d_has_dns d_dns_ips h_http_ok h_final_url
    h_status_code h_used_https t_text_ok t_homepage_text negb fst snd
    counters results trace];
  try match goal with
      | H : call_text _ _ = _ |- _ => rewrite H
      end;
  cbn [d_has_dns d_dns_ips h_http_ok h_final_url
    h_status_code h_used_https t_text_ok t_homepage_text negb fst snd
    counters results trace];
  try destruct (((i + 1) mod LOG_INTERVAL =? 0) || (i + 1 =? n)) eqn:Hdue;
  cbn [fst snd counters results trace].

(** A pass reports progress only when it falls through to the end of the
    loop body - its record is then [text] or the [fail] record of the
    [catch] clause - and a report is due; a [text] pass on which a report
    is due always reports. *)
Lemma iteration_progress (s0 : Stages) (i n : nat) (d : jstring)
      (s : MainState) :
  exists r evs,
    results (snd (iteration s0 i n d s)) = results s ++ [r]
    /\ trace (snd (iteration s0 i n d s)) = trace s ++ evs
    /\ (forall m c, In (EvProgress m c) evs ->
                    m = i + 1 /\ report_due i n
                    /\ (stage r = StText \/ stage r = StFail))
    /\ (stage r = StText -> report_due i n ->
        exists c, In (EvProgress (i + 1) c) evs).
Proof.
  run_pass_due s0 i n d Hdue;
    rewrite <- ?app_assoc; simpl;
    do 2 eexists; (split; [reflexivity |]); (split; [reflexivity |]);
    (split;
     [ intros m c Hin; simpl in Hin;
       repeat match type of Hin with
              | _ \/ _ => destruct Hin as [Hin | Hin]
              end;
       try contradiction; try discriminate Hin;
       inversion Hin; subst;
       apply report_due_iff in Hdue; auto
     | simpl; intros Hst Hrep; try discriminate Hst;
       try (apply report_due_iff in Hrep; congruence);
       eexists; simpl; eauto 10 ]).
Qed.

Lemma main_progress_invariant (st : nat -> Stages) (n : nat)
      (rows : list jstring) :
  let s := snd (for_rows st n 0 rows initial_state) in
  List.length (results s) = List.length rows
  /\ (forall m c, In (EvProgress m c) (trace s) ->
        exists i r, m = i + 1 /\ report_due i n
                    /\ nth_error (results s) i = Some r
                    /\ (stage r = StText \/ stage r = StFail))
  /\ (forall i r, nth_error (results s) i = Some r ->
        stage r = StText -> report_due i n ->
        exists c, In (EvProgress (i + 1) c) (trace s)).
Proof.
  apply (for_rows_invariant_init st n
           (fun done s =>
              List.length (results s) = List.length done
              /\ (forall m c, In (EvProgress m c) (trace s) ->
                    exists i r, m = i + 1 /\ report_due i n
                                /\ nth_error (results s) i = Some r
                                /\ (stage r = StText \/ stage r = StFail))
              /\ (forall i r, nth_error (results s) i = Some r ->
                    stage r = StText -> report_due i n ->
                    exists c, In (EvProgress (i + 1) c) (trace s)))).
  - intros done d s (Hlen & Hrep & Htext).
    destruct (iteration_progress (st (List.length done)) (List.length done)
                n d s) as (r & evs & -> & -> & Hnew & Hdue).
    rewrite !length_app. simpl. split; [lia |]. split.
    + intros m c Hin. apply in_app_or in Hin as [Hin | Hin].
      * destruct (Hrep m c Hin) as (i & r' & -> & Hd & Hnth & Hst).
        exists i, r'. repeat split; auto.
        rewrite nth_error_app1; [exact Hnth |].
        apply nth_error_Some. congruence.
      * destruct (Hnew m c Hin) as (-> & Hd & Hst).
        exists (List.length done), r. repeat split; auto.
        rewrite nth_error_app2 by lia.
        now rewrite Hlen, Nat.sub_diag.
    + intros i r' Hnth Hst Hd.
      destruct (Nat.lt_ge_cases i (List.length (results s))) as [Hlt | Hge].
      * rewrite nth_error_app1 in Hnth by exact Hlt.
        destruct (Htext i r' Hnth Hst Hd) as [c Hc].
        exists c. apply in_or_app. now left.
      * rewrite nth_error_app2 in Hnth by exact Hge.
        destruct (i - List.length (results s)) as [| k] eqn:Ek;
          [| destruct k; discriminate].
        simpl in Hnth. inversion Hnth; subst r'.
        assert (i = List.length done) by lia. subst i.
        destruct (Hdue Hst Hd) as [c Hc].
        exists c. apply in_or_app. now right.
  - simpl. split; [reflexivity |]. split.
    + intros m c [].
    + intros i r0 Hnth. destruct i; discriminate Hnth.
Qed.

(** X11.  Progress is reported after pass [i] only if [i + 1] is a
    multiple of [LOG_INTERVAL] or the number of rows, and only if the pass
    fell through to the end of the loop body: its record is a [text]
    record or a [fail] record.  A pass that stopped at [dns] or [http]
    leaves by [continue] and is never followed by a report, even when it
    is the last one; a [text] pass on which a report is due always
    reports. *)
Theorem progress_reported_only_after_full_pass
        (st : nat -> Stages) (input : list InputRow) :
  let run := main_with st input in
  let n := List.length (load_rows input) in
  (forall m c, In (EvProgress m c) (trace (snd run)) ->
     exists i r, m = i + 1 /\ report_due i n
                 /\ nth_error (written run) i = Some r
                 /\ (stage r = StText \/ stage r = StFail))
  /\ (forall i r, nth_error (written run) i = Some r ->
        stage r = StDns \/ stage r = StHttp ->
        forall c, ~ In (EvProgress (i + 1) c) (trace (snd run)))
  /\ (forall i r, nth_error (written run) i = Some r ->
        stage r = StText -> report_due i n ->
        exists c, In (EvProgress (i + 1) c) (trace (snd run))).
Proof.
  intros run n.
  pose proof (main_progress_invariant st n (load_rows input))
    as (_ & Hrep & Htext).
  split; [exact Hrep |]. split; [| exact Htext].
  intros i r Hnth Hst c Hin.
  destruct (Hrep _ _ Hin) as (i' & r' & Hi & _ & Hnth' & Hst').
  assert (i' = i) by lia. subst i'.
  assert (Hrr : Some r = Some r').
  { transitivity (nth_error (written run) i);
      [symmetry; exact Hnth | exact Hnth']. }
  inversion Hrr; subst r'.
  destruct Hst as [Hst | Hst], Hst' as [Hst' | Hst']; congruence.
Qed.

(** A batch holding [a.test] alone: its pass reaches [text] and is the
    last one, so the report is made. *)
Lemma progress_reported_only_after_full_pass_witness :
  exists c,
    In (EvProgress (0 + 1) c)
       (trace (snd (main_with (fun i => script_stages (Sample.world i))
                              (firstn 1 Sample.input)))).
Proof.
  destruct (nth_error
              (written (main_with (fun i => script_stages (Sample.world i))
                                  (firstn 1 Sample.input))) 0)
    as [r |] eqn:E; [| vm_compute in E; discriminate].
  pose proof (progress_reported_only_after_full_pass
                (fun i => script_stages (Sample.world i))
                (firstn 1 Sample.input)) as (_ & _ & Hdue).
  apply (Hdue 0 r E).
  - vm_compute in E. now inversion E.
  - right. reflexivity.
Defined.

(* ------------------------------------------------------------------ *)
(** ** Passes are independent *)

(** The record of a pass depends on the domain and on what the stage calls
    answer, not on the position of the row, the size of the batch or the
    state of the run. *)
Lemma iteration_record_independent (s0 : Stages) (d : jstring) :
  exists r,
    forall i n s,
      results (snd (iteration s0 i n d s)) = results s ++ [r].
Proof.
  pass_cases s0 d; eexists; intros i n s;
    unfold iteration, progress, try_catch_m, bind, call, update, push,
      continue, report, ret, log, fail_record;
    rewrite ?Edns;
    cbn [d_has_dns d_dns_ips negb fst snd counters results trace];
    rewrite ?Ehttp;
    cbn [h_http_ok h_final_url h_status_code h_used_https negb fst snd
         counters results trace];
    rewrite ?Etext;
    cbn [t_text_ok t_homepage_text negb fst snd counters results trace];
    destruct (((i + 1) mod LOG_INTERVAL =? 0) || (i + 1 =? n));
    reflexivity.
Qed.

Lemma for_rows_ext (st st' : nat -> Stages) (n : nat) (rows : list jstring) :
  (forall j, st j = st' j) ->
  forall i s, for_rows st n i rows s = for_rows st' n i rows s.
Proof.
  intros Hext. induction rows as [| d rest IH]; intros i s; [reflexivity |].
  simpl. rewrite Hext.
  destruct (iteration (st' i) i n d s) as [[| |] s']; auto.
Qed.

Lemma for_rows_results_shift (rows : list jstring) :
  forall (n n' : nat) (st : nat -> Stages) i s,
    results (snd (for_rows st n i rows s))
    = results s
      ++ results (snd (for_rows (fun j => st (i + j)) n' 0 rows
                                initial_state)).
Proof.
  induction rows as [| d rest IH]; intros n n' st i s.
  - simpl. now rewrite app_nil_r.
  - rewrite !for_rows_step.
    destruct (iteration_record_independent (st i) d) as [r Hr].
    rewrite (IH n n' st (S i)), Hr.
    rewrite (IH n' n' (fun j => st (i + j)) 1), Nat.add_0_r, Hr.
    simpl. rewrite <- app_assoc. simpl. do 4 f_equal.
    apply for_rows_ext. intros j. f_equal. lia.
Qed.

Lemma load_rows_app (a b : list InputRow) :
  load_rows (a ++ b) = load_rows a ++ load_rows b.
Proof.
  induction a as [| rec a IH]; [reflexivity |].
  simpl. destruct (row_domain rec) as [[| c d] |]; simpl; now rewrite IH.
Qed.

(** X12.  The passes are independent: the records of a batch [a ++ b] are
    the records of [a] followed by the records of [b] processed on its
    own (each row against the stage behaviour of its own pass).  The
    record of a row does not depend on the rows before or after it, on its
    position, or on the size of the batch. *)
Theorem records_of_concatenated_batches
        (st : nat -> Stages) (w : nat -> Env) (a b : list InputRow) :
  written (main_with st (a ++ b))
  = written (main_with st a)
    ++ written (main_with (fun j => st (List.length (load_rows a) + j)) b)
  /\ written (main w (a ++ b))
     = written (main w a)
       ++ written (main (fun j => w (List.length (load_rows a) + j)) b).
Proof.
  assert (Hgen : forall st',
             written (main_with st' (a ++ b))
             = written (main_with st' a)
               ++ written (main_with
                             (fun j => st' (List.length (load_rows a) + j)) b)).
  { intros st'. unfold written, main_with. rewrite load_rows_app.
    rewrite for_rows_app.
    rewrite (for_rows_results_shift (load_rows b) _
               (List.length (load_rows b)) st').
    f_equal.
    rewrite (for_rows_results_shift (load_rows a) _
               (List.length (load_rows a)) st' 0 initial_state).
    rewrite (for_rows_results_shift (load_rows a)
               (List.length (load_rows a)) (List.length (load_rows a))
               st' 0 initial_state).
    reflexivity. }
  split; [apply Hgen |]. unfold main. apply Hgen.
Qed.

(* ------------------------------------------------------------------ *)
(** ** Where the fields of a record come from *)

Lemma Ok_inj (A : Type) (a b : A) : Ok a = Ok b -> a = b.
Proof. congruence. Qed.

Lemma iteration_record_from (env : Env) (i n : nat) (d : jstring)
      (s : MainState) :
  exists r,
    results (snd (iteration (script_stages env) i n d s)) = results s ++ [r]
    /\ record_from env r.
Proof.
  run_pass (script_stages env) i n d; try discriminate;
    cbn [call_dns call_http call_text script_stages] in *;
    repeat match goal with
           | H : Ok _ = Ok _ |- _ => apply Ok_inj in H
           end;
    eexists; (split; [reflexivity |]);
    unfold record_from;
    cbn [domain has_dns dns_ips http_ok final_url status_code used_https
         text_ok homepage_text];
    repeat split; intros; try discriminate; auto.
Qed.

Lemma main_records_invariant (w : nat -> Env) (n : nat)
      (rows : list jstring) :
  let s := snd (for_rows (fun j => script_stages (w j)) n 0 rows
                         initial_state) in
  List.length (results s) = List.length rows
  /\ forall i r, nth_error (results s) i = Some r -> record_from (w i) r.
Proof.
  apply (for_rows_invariant_init (fun j => script_stages (w j)) n
           (fun done s =>
              List.length (results s) = List.length done
              /\ forall i r, nth_error (results s) i = Some r ->
                             record_from (w i) r)).
  - intros done d s (Hlen & Hold).
    destruct (iteration_record_from (w (List.length done)) (List.length done)
                n d s) as (r & -> & Hnew).
    rewrite !length_app. simpl. split; [lia |].
    intros i r' Hnth.
    destruct (Nat.lt_ge_cases i (List.length (results s))) as [Hlt | Hge].
    + rewrite nth_error_app1 in Hnth by exact Hlt. now apply Hold.
    + rewrite nth_error_app2 in Hnth by exact Hge.
      destruct (i - List.length (results s)) as [| k] eqn:Ek;
        [| destruct k; discriminate].
      simpl in Hnth. inversion Hnth; subst r'.
      assert (i = List.length done) by lia. now subst i.
  - simpl. split; [reflexivity |].
    intros i r0 Hnth. destruct i; discriminate Hnth.
Qed.

(** X16.  The record of row [i] is what the script's stage functions
    answer in the environment of pass [i]: Probe is asked about the row's
    domain, and Extract fetches the final URL that Probe returned (the URL
    after redirects, not the candidate URL that was requested).  A record
    without DNS comes from a resolver error or a resolver throw. *)
Theorem main_records_from_stage_functions
        (w : nat -> Env) (input : list InputRow) (i : nat) (r : DomainRecord) :
  nth_error (written (main w input)) i = Some r ->
  (has_dns r = true ->
   dnsLookup (w i) (domain r) = Ok (mkDns true (dns_ips r))
   /\ httpCheck (w i) (domain r)
      = mkHttp (http_ok r) (final_url r) (status_code r) (used_https r))
  /\ (has_dns r = false ->
      dnsLookup (w i) (domain r) = Throw
      \/ dnsLookup (w i) (domain r) = Ok (mkDns false (dns_ips r)))
  /\ (http_ok r = true ->
      fetchText (w i) (final_url r) = mkText (homepage_text r) (text_ok r)).
Proof.
  intros Hnth.
  pose proof (main_records_invariant w (List.length (load_rows input))
                (load_rows input)) as (_ & Hrec).
  exact (Hrec i r Hnth).
Qed.

Lemma main_records_from_stage_functions_witness :
  exists r,
    nth_error (written (main Sample.world Sample.input)) 0 = Some r
    /\ fetchText (Sample.world 0) (final_url r)
       = mkText (homepage_text r) (text_ok r).
Proof.
  destruct (nth_error (written (main Sample.world Sample.input)) 0)
    as [r |] eqn:E; [| vm_compute in E; discriminate].
  exists r. split; [reflexivity |].
  apply (main_records_from_stage_functions Sample.world Sample.input 0 r E).
  vm_compute in E. now inversion E.
Defined.

(* ------------------------------------------------------------------ *)
(** ** Rows without a domain *)

Lemma load_rows_filter (input : list InputRow) :
  map Some (load_rows input) = map row_domain (filter has_domain input).
Proof.
  induction input as [| rec rest IH]; [reflexivity |].
  unfold has_domain in *. simpl.
  destruct (row_domain rec) as [[| c t] |] eqn:E; simpl; auto.
  now rewrite E, IH.
Qed.

Lemma load_rows_skip (a b : list InputRow) (bad : InputRow) :
  has_domain bad = false -> load_rows (a ++ bad :: b) = load_rows (a ++ b).
Proof.
  intros Hbad. rewrite !load_rows_app. f_equal. simpl.
  unfold has_domain in Hbad.
  destruct (row_domain bad) as [[| c t] |]; auto. discriminate.
Qed.

(** X17.  Rows that lack a domain, or whose domain is the empty string,
    are inert: the run over a batch is the run over its rows that have a
    domain - same records, counters and trace - so such a row takes no
    pass, is counted nowhere and does not shift the passes of the rows
    after it; the number of records is the number of rows that have a
    domain. *)
Theorem rows_without_domain_are_inert
        (st : nat -> Stages) (w : nat -> Env) (input : list InputRow) :
  main_with st input = main_with st (filter has_domain input)
  /\ main w input = main w (filter has_domain input)
  /\ List.length (written (main w input))
     = List.length (filter has_domain input)
  /\ (forall a b bad,
        input = a ++ bad :: b -> has_domain bad = false ->
        main w input = main w (a ++ b)).
Proof.
  assert (Hload : load_rows input = load_rows (filter has_domain input)).
  { induction input as [| rec rest IH]; [reflexivity |].
    unfold has_domain in *. simpl.
    destruct (row_domain rec) as [[| c t] |] eqn:E; simpl; auto.
    now rewrite E, IH. }
  assert (Hgen : forall st', main_with st' input
                             = main_with st' (filter has_domain input)).
  { intros st'. unfold main_with. now rewrite <- Hload. }
  split; [apply Hgen |]. split; [apply Hgen |]. split.
  - unfold written, main, main_with.
    rewrite for_rows_results_length. simpl.
    rewrite <- (length_map Some), load_rows_filter. apply length_map.
  - intros a b bad -> Hbad. unfold main, main_with.
    now rewrite (load_rows_skip a b bad Hbad).
Qed.

Lemma rows_without_domain_are_inert_witness :
  main Sample.world Sample.ragged_input
  = main Sample.world [mkRow (Some (lit "a.test"));
                       mkRow (Some (lit "down.test"))].
Proof.
  pose proof (rows_without_domain_are_inert
                (fun i => script_stages (Sample.world i)) Sample.world
                Sample.ragged_input) as (_ & _ & _ & Hskip).
  rewrite (Hskip [mkRow (Some (lit "a.test"))]
                 [mkRow (Some []); mkRow (Some (lit "down.test"))]
                 (mkRow None) eq_refl eq_refl).
  pose proof (rows_without_domain_are_inert
                (fun i => script_stages (Sample.world i)) Sample.world
                ([mkRow (Some (lit "a.test"))]
                   ++ [mkRow (Some []); mkRow (Some (lit "down.test"))]))
    as (_ & _ & _ & Hskip').
  apply (Hskip' [mkRow (Some (lit "a.test"))]
                [mkRow (Some (lit "down.test"))] (mkRow (Some []))
                eq_refl eq_refl).
Defined.

(* ================================================================== *)
(** * Reading the input, writing the output *)
(* ================================================================== *)

Lemma exn_unit (e : Exn unit) : e = Ok tt \/ e = Throw.
Proof. destruct e as [[] |]; auto. Qed.

Lemma read_cursor_ok_iff (answers : list (Exn InputRow))
      (recs : list InputRow) :
  read_cursor answers = Ok recs <-> answers = map Ok recs.
Proof.
  revert recs. induction answers as [| [rec |] rest IH]; intros recs; simpl.
  - split.
    + intros E. inversion E. reflexivity.
    + destruct recs; [reflexivity | discriminate].
  - destruct (read_cursor rest) as [recs' |] eqn:Er; simpl.
    + split.
      * intros E. inversion E; subst. simpl. f_equal. now apply IH.
      * destruct recs as [| r recs]; [discriminate |]. simpl.
        intros E. inversion E; subst. f_equal. f_equal.
        assert (Ok recs' = Ok recs) by (apply IH; reflexivity).
        congruence.
    + split; [discriminate |].
      destruct recs as [| r recs]; [discriminate |]. simpl.
      intros E. inversion E; subst.
      assert (@Throw (list InputRow) = Ok recs) by (apply IH; reflexivity).
      discriminate.
  - split; [discriminate |]. destruct recs; discriminate.
Qed.

(** X13.  The input is read all or nothing: [read_input] delivers records
    exactly when the file opens, every [cursor.next()] call up to the end
    answers with a record, and the reader closes; it then delivers all of
    them in order.  A throw at any point - after any number of records -
    makes the whole read throw, and the records read so far are lost. *)
Theorem read_input_all_or_nothing (rd : Reader) (recs : list InputRow) :
  (read_input rd = Ok recs <->
   open_reader rd = Ok tt
   /\ cursor_next rd = map Ok recs
   /\ close_reader rd = Ok tt)
  /\ (forall before after,
         cursor_next rd = map Ok before ++ Throw :: after ->
         read_input rd = Throw).
Proof.
  unfold read_input. split.
  - destruct (exn_unit (open_reader rd)) as [-> | ->]; simpl.
    + destruct (read_cursor (cursor_next rd)) as [recs' |] eqn:Er; simpl.
      * apply read_cursor_ok_iff in Er.
        destruct (exn_unit (close_reader rd)) as [-> | ->]; simpl.
        -- split.
           ++ intros E. inversion E; subst. auto.
           ++ intros (_ & E & _). rewrite Er in E.
              f_equal. revert recs E. clear.
              induction recs' as [| r recs' IH]; intros [| r' recs] E;
                try discriminate; [reflexivity |].
              simpl in E. inversion E; subst. f_equal. now apply IH.
        -- split; [discriminate | intros (_ & _ & E); discriminate].
      * split; [discriminate |]. intros (_ & E & _).
        apply read_cursor_ok_iff in E. congruence.
    + split; [discriminate | intros (E & _); discriminate].
  - intros before after Hcur.
    destruct (open_reader rd); simpl; [| reflexivity].
    assert (Hthrow : read_cursor (cursor_next rd) = Throw).
    { rewrite Hcur. clear. induction before as [| r before IH]; simpl;
        [reflexivity | now rewrite IH]. }
    now rewrite Hthrow.
Qed.

Lemma read_input_all_or_nothing_witness :
  read_input SampleIO.reader = Ok Sample.input
  /\ read_input SampleIO.broken_reader = Throw.
Proof.
  split.
  - apply (proj1 (read_input_all_or_nothing SampleIO.reader Sample.input)).
    repeat split.
  - apply (proj2 (read_input_all_or_nothing SampleIO.broken_reader [])
                 (firstn 2 Sample.input) []).
    reflexivity.
Defined.

(** What the append loop has done when it stops. *)
Lemma append_all_spec (wr : Writer) (rows done : list DomainRecord) :
  exists taken rest,
    rows = taken ++ rest
    /\ snd (append_all wr done rows) = done ++ taken
    /\ (forall pre row post,
          taken = pre ++ row :: post ->
          append_row wr (done ++ pre) row = Ok tt)
    /\ ((fst (append_all wr done rows) = Ok tt /\ rest = [])
        \/ (fst (append_all wr done rows) = Throw
            /\ exists row rest',
                 rest = row :: rest'
                 /\ append_row wr (done ++ taken) row = Throw)).
Proof.
  revert done. induction rows as [| row rows IH]; intros done.
  - exists [], []. simpl. rewrite app_nil_r. repeat split; auto.
    intros [| ? pre] ? ? E; discriminate.
  - simpl. destruct (exn_unit (append_row wr done row)) as [E | E]; rewrite E.
    + destruct (IH (done ++ [row])) as (taken & rest & -> & Hout & Hok & Hend).
      exists (row :: taken), rest. rewrite <- app_assoc in Hout. simpl in Hout.
      split; [reflexivity |]. split; [exact Hout |]. split.
      * intros [| x pre] r post Esplit; simpl in Esplit; inversion Esplit; subst.
        -- now rewrite app_nil_r.
        -- specialize (Hok pre r post eq_refl).
           now rewrite <- app_assoc in Hok.
      * destruct Hend as [Hend | (Hthrow & r & rest' & -> & Hr)];
          [now left | right].
        split; [exact Hthrow |]. exists r, rest'. split; [reflexivity |].
        now rewrite <- app_assoc in Hr.
    + exists [], (row :: rows). simpl. rewrite app_nil_r.
      split; [reflexivity |]. split; [reflexivity |]. split.
      * intros [| ? pre] ? ? Esplit; discriminate.
      * right. split; [reflexivity |]. eauto.
Qed.

Lemma writeParquetFile_ok_closed
      (wr : Writer) (rows : list DomainRecord) :
  fst (writeParquetFile wr rows) = Ok tt ->
  closed (snd (writeParquetFile wr rows)) = true
  /\ appended (snd (writeParquetFile wr rows)) = rows.
Proof.
  unfold writeParquetFile.
  destruct (append_all_spec wr rows [])
    as (taken & rest & Hrows & Hout & _ & Hend).
  simpl in Hout.
  destruct (open_file wr); [| discriminate].
  destruct (append_all wr [] rows) as [[[] |] out]; simpl in *;
    [| discriminate].
  destruct Hend as [[_ ->] | [Hthrow _]]; [| discriminate].
  rewrite app_nil_r in Hrows. subst.
  destruct (close_file wr); [auto | discriminate].
Qed.

(** X14.  [writeParquetFile] closes the file exactly when it returns
    normally, and then every row has been appended, in order.  The rows
    in the file are always an initial segment of the rows given.  When
    opening, an append or the close throws, the call throws and the file
    is not closed: after a failed append it stays open holding the rows
    before the failing one (there is no [finally]). *)
Theorem writeParquetFile_closes_only_on_success
        (wr : Writer) (rows : list DomainRecord) :
  let c := fst (writeParquetFile wr rows) in
  let f := snd (writeParquetFile wr rows) in
  (exists rest, rows = appended f ++ rest)
  /\ (c = Ok tt <-> closed f = true)
  /\ (closed f = true -> opened f = true /\ appended f = rows)
  /\ (c = Ok tt <->
      open_file wr = Ok tt /\ close_file wr = Ok tt
      /\ forall pre row post,
           rows = pre ++ row :: post -> append_row wr pre row = Ok tt)
  /\ (forall pre row post,
        open_file wr = Ok tt ->
        rows = pre ++ row :: post ->
        (forall p r q, pre = p ++ r :: q -> append_row wr p r = Ok tt) ->
        append_row wr pre row = Throw ->
        c = Throw /\ f = mkFile true pre false).
Proof.
  intros c f. unfold c, f, writeParquetFile. clear c f.
  destruct (append_all_spec wr rows []) as (taken & rest & Hrows & Hout & Hok & Hend).
  simpl in Hout, Hok.
  destruct (exn_unit (open_file wr)) as [Eo | Eo]; rewrite Eo.
  - destruct (append_all wr [] rows) as [[[] |] out] eqn:Ea; simpl in *; subst out.
    + destruct Hend as [[_ ->] | [Hthrow _]]; [| discriminate].
      rewrite app_nil_r in Hrows. subst taken.
      destruct (exn_unit (close_file wr)) as [Ec | Ec]; rewrite Ec; simpl.
      * split; [exists []; now rewrite app_nil_r |].
        split; [tauto |]. split; [auto |]. split.
        -- split; auto.
        -- intros pre row post _ Hsplit _ Hrow.
           rewrite (Hok pre row post Hsplit) in Hrow. discriminate.
      * split; [exists []; now rewrite app_nil_r |].
        split; [split; discriminate |]. split; [discriminate |]. split.
        -- split; [discriminate | intros (_ & E & _); discriminate].
        -- intros pre row post _ Hsplit _ Hrow.
           rewrite (Hok pre row post Hsplit) in Hrow. discriminate.
    + destruct Hend as [[Hno _] | (_ & r & rest' & -> & Hr)]; [discriminate |].
      split; [eauto |]. split; [split; discriminate |].
      split; [discriminate |]. split.
      * split; [discriminate |]. intros (_ & _ & Hall).
        rewrite (Hall taken r rest' Hrows) in Hr. discriminate.
      * intros pre row post _ Hsplit Hpre Hrow.
        assert (pre = taken).
        { clear - Hrows Hsplit Hok Hpre Hr Hrow. subst rows.
          revert pre Hsplit Hpre Hrow.
          assert (Hgen : forall (base : list DomainRecord) pre,
                     (forall p x q, taken = p ++ x :: q ->
                                    append_row wr (base ++ p) x = Ok tt) ->
                     append_row wr (base ++ taken) r = Throw ->
                     taken ++ r :: rest' = pre ++ row :: post ->
                     (forall p x q, pre = p ++ x :: q ->
                                    append_row wr (base ++ p) x = Ok tt) ->
                     append_row wr (base ++ pre) row = Throw ->
                     pre = taken).
          { clear. induction taken as [| t taken IH]; intros base pre Hok Hr E Hpre Hrow.
            - destruct pre as [| p pre]; [reflexivity |].
              simpl in E. inversion E; subst.
              specialize (Hpre [] p pre eq_refl). congruence.
            - destruct pre as [| p pre].
              + simpl in E. inversion E; subst.
                specialize (Hok [] row taken eq_refl). congruence.
              + simpl in E. inversion E; subst. f_equal.
                apply (IH (base ++ [p])).
                * intros q x z ->. rewrite <- app_assoc.
                  apply (Hok (p :: q) x z). reflexivity.
                * now rewrite <- app_assoc.
                * assumption.
                * intros q x z ->. rewrite <- app_assoc.
                  apply (Hpre (p :: q) x z). reflexivity.
                * now rewrite <- app_assoc. }
          intros pre Hsplit Hpre Hrow.
          apply (Hgen [] pre); auto. }
        subst pre. auto.
  - simpl. split; [exists rows; reflexivity |].
    split; [split; discriminate |]. split; [discriminate |]. split.
    + split; [discriminate | intros (E & _); discriminate].
    + intros pre row post E. discriminate.
Qed.

Lemma writeParquetFile_closes_only_on_success_witness :
  fst (writeParquetFile SampleIO.full_disk
         (written (main Sample.world Sample.input))) = Throw
  /\ snd (writeParquetFile SampleIO.full_disk
            (written (main Sample.world Sample.input)))
     = mkFile true (firstn 2 (written (main Sample.world Sample.input))) false.
Proof.
  destruct (written (main Sample.world Sample.input))
    as [| r0 [| r1 [| r2 rest]]] eqn:E;
    try (vm_compute in E; discriminate).
  pose proof (writeParquetFile_closes_only_on_success SampleIO.full_disk
                (r0 :: r1 :: r2 :: rest)) as (_ & _ & _ & _ & H).
  apply (H [r0; r1] r2 rest).
  - reflexivity.
  - reflexivity.
  - intros [| p0 [| p1 [| p2 p]]] r q Ep; try reflexivity;
      apply (f_equal (@List.length DomainRecord)) in Ep;
      rewrite length_app in Ep; simpl in Ep; lia.
  - reflexivity.
Defined.

(** X15.  A run of the whole script is rejected only by a failure to read
    the input or to write the output; no fault of a stage call rejects it.
    When the read fails, no stage call is made and the output file is not
    touched.  When the run is fulfilled, the file is closed and holds
    exactly one record per loaded row, in input order. *)
Theorem main_script_aborts_only_on_io
        (rd : Reader) (w : nat -> Env) (wr : Writer) :
  let o := main_script rd w wr in
  (read_input rd = Throw ->
   completion o = Throw /\ trace (final o) = [] /\ results (final o) = []
   /\ file o = untouched_file)
  /\ (forall input,
        read_input rd = Ok input ->
        final o = snd (main w input)
        /\ completion o = fst (writeParquetFile wr (written (main w input)))
        /\ file o = snd (writeParquetFile wr (written (main w input))))
  /\ (completion o = Ok tt ->
      exists input,
        read_input rd = Ok input
        /\ closed (file o) = true
        /\ appended (file o) = results (final o)
        /\ map domain (appended (file o)) = load_rows input).
Proof.
  intros o. unfold o, main_script. clear o.
  destruct (read_input rd) as [input |] eqn:Er.
  - assert (Hrun : fst (main w input) = Normal tt)
      by (apply for_rows_normal).
    assert (Hdom : map domain (results (snd (main w input)))
                   = load_rows input).
    { unfold main, main_with.
      destruct (for_rows_results (fun i => script_stages (w i))
                  (List.length (load_rows input)) (load_rows input) 0
                  initial_state) as (rs & -> & Hm & _).
      exact Hm. }
    destruct (main w input) as [[[] | |] s] eqn:Em; try discriminate.
    unfold written. cbn [snd fst] in *.
    pose proof (writeParquetFile_ok_closed wr (results s))
      as Hw.
    destruct (writeParquetFile wr (results s)) as [c f] eqn:Ew.
    cbn [fst snd] in *.
    split; [discriminate |]. split.
    + intros input' E. inversion E; subst input'.
      rewrite Em. cbn [fst snd]. rewrite Ew. auto.
    + intros Hc. exists input. destruct (Hw Hc) as [Hcl Happ].
      split; [reflexivity |]. split; [exact Hcl |].
      split; [exact Happ |]. cbn [file final appended] in *.
      now rewrite Happ.
  - split; [auto |]. split; [discriminate |]. discriminate.
Qed.

Lemma main_script_aborts_only_on_io_witness :
  (completion (main_script SampleIO.broken_reader Sample.world SampleIO.writer)
   = Throw
   /\ trace (final (main_script SampleIO.broken_reader Sample.world
                                SampleIO.writer)) = []
   /\ results (final (main_script SampleIO.broken_reader Sample.world
                                  SampleIO.writer)) = []
   /\ file (main_script SampleIO.broken_reader Sample.world SampleIO.writer)
      = untouched_file)
  /\ (exists input,
        read_input SampleIO.reader = Ok input
        /\ closed (file (main_script SampleIO.reader Sample.world
                                     SampleIO.writer)) = true
        /\ appended (file (main_script SampleIO.reader Sample.world
                                       SampleIO.writer))
           = results (final (main_script SampleIO.reader Sample.world
                                         SampleIO.writer))
        /\ map domain (appended (file (main_script SampleIO.reader
                                         Sample.world SampleIO.writer)))
           = load_rows input).
Proof.
  split.
  - apply (main_script_aborts_only_on_io SampleIO.broken_reader Sample.world
             SampleIO.writer).
    reflexivity.
  - apply (main_script_aborts_only_on_io SampleIO.reader Sample.world
             SampleIO.writer).
    reflexivity.
Defined.
